(** * jshint-server: option resolution and file exclusion

    A shallow embedding of [jshint-server/src/server.ts]: the comment
    stripper, the [extends] merge of [.jshintrc] files, [OptionsResolver]
    and [FileMatcher], with the properties of the specification stated
    over them. *)

From Stdlib Require Import List String Ascii NArith ZArith Bool Lia.
Import ListNotations.
Local Open Scope N_scope.
Set Warnings "-register-all".

(** ** JavaScript strings

    A JavaScript string is a sequence of UTF-16 code units. *)

Definition jsstring := list N.

Definition js (s : string) : jsstring :=
  map N_of_ascii (list_ascii_of_string s).

Fixpoint jsstring_eqb (a b : jsstring) : bool :=
  match a, b with
  | [], [] => true
  | x :: a', y :: b' => (x =? y) && jsstring_eqb a' b'
  | _, _ => false
  end.

(** [if (s)] on a string: the empty string is falsy. *)
Definition nonempty (s : jsstring) : bool :=
  match s with [] => false | _ => true end.

Module Chars.
Definition dquote : N := 34.
Definition squote : N := 39.
Definition star : N := 42.
Definition slash : N := 47.
Definition backslash : N := 92.
Definition lf : N := 10.
Definition cr : N := 13.
Definition lsep : N := 8232.
Definition psep : N := 8233.
End Chars.
Import Chars.

(** The characters the regular expression atom [.] does not match. *)
Definition isLineTerminator (c : N) : bool :=
  (c =? lf) || (c =? cr) || (c =? lsep) || (c =? psep).

(** ** stripComments

    The regular expression of [stripComments] has four alternatives, each
    anchored by its first characters.  One matcher per alternative takes
    the text after the opening delimiter and gives the rest of the match
    and the text after it, or [None] where the alternative fails. *)

(** Groups 1 and 2, after the opening quote [q]:
    [(?:[^\\q]*(?:\\.)?)*q]. *)
Fixpoint quoted (q : N) (s : jsstring) : option (jsstring * jsstring) :=
  match s with
  | [] => None
  | c :: t =>
      if c =? q then Some ([c], t)
      else if c =? backslash then
        match t with
        | d :: t' =>
            if isLineTerminator d then None
            else match quoted q t' with
                 | Some (m, rest) => Some (c :: d :: m, rest)
                 | None => None
                 end
        | [] => None
        end
      else match quoted q t with
           | Some (m, rest) => Some (c :: m, rest)
           | None => None
           end
  end.

(** Group 3, after the opening [/*]: [(?:\r?\n|.)*?\*\/]. *)
Fixpoint blockComment (s : jsstring) : option (jsstring * jsstring) :=
  match s with
  | [] => None
  | c :: t =>
      match t with
      | [] => None
      | d :: t' =>
          if (c =? star) && (d =? slash) then Some ([c; d], t')
          else if (c =? cr) && (d =? lf) then
            match blockComment t' with
            | Some (m, rest) => Some (c :: d :: m, rest)
            | None => None
            end
          else if (c =? lf) || negb (isLineTerminator c) then
            match blockComment t with
            | Some (m, rest) => Some (c :: m, rest)
            | None => None
            end
          else None
      end
  end.

(** Group 4, after the first two slashes: [.*?(?:(?:\r?\n)|$)]. *)
Fixpoint lineComment (s : jsstring) : option (jsstring * jsstring) :=
  match s with
  | [] => Some ([], [])
  | c :: t =>
      if c =? lf then Some ([c], t)
      else if c =? cr then
        match t with
        | d :: t' => if d =? lf then Some ([c; d], t') else None
        | [] => None
        end
      else if isLineTerminator c then None
      else match lineComment t with
           | Some (m, rest) => Some (c :: m, rest)
           | None => None
           end
  end.

(** The replacement callback on a line comment [m4]. *)
Definition lineReplacement (m4 : jsstring) : jsstring :=
  let length := List.length m4 in
  if (2 <? length)%nat && (nth (length - 1) m4 0 =? lf) then
    if nth (length - 2) m4 0 =? cr then [cr; lf] else [lf]
  else [].

(** [content.replace(regexp, callback)] with the global flag: the leftmost
    match is replaced and the scan goes on after it; a character at which
    no alternative matches is copied. *)
Fixpoint replaceComments (fuel : nat) (s : jsstring) : jsstring :=
  match s with
  | [] => []
  | c :: t =>
      match fuel with
      | O => s
      | S fuel' =>
          if (c =? dquote) || (c =? squote) then
            match quoted c t with
            | Some (m, rest) => c :: m ++ replaceComments fuel' rest
            | None => c :: replaceComments fuel' t
            end
          else if c =? slash then
            match t with
            | d :: t' =>
                if d =? star then
                  match blockComment t' with
                  | Some (_, rest) => replaceComments fuel' rest
                  | None => c :: replaceComments fuel' t
                  end
                else if d =? slash then
                  match lineComment t' with
                  | Some (m, rest) =>
                      lineReplacement (c :: d :: m)
                        ++ replaceComments fuel' rest
                  | None => c :: replaceComments fuel' t
                  end
                else c :: replaceComments fuel' t
            | [] => [c]
            end
          else c :: replaceComments fuel' t
      end
  end.

Definition stripComments (content : jsstring) : jsstring :=
  replaceComments (List.length content) content.


(** ** JavaScript values

    What [JSON.parse] returns, and [undefined]. *)

Inductive jsval : Type :=
| JUndefined
| JNull
| JBool (b : bool)
| JNum (z : Z)
| JStr (s : jsstring)
| JArr (items : list jsval)
| JObj (fields : list (jsstring * jsval)).

Definition jsobject := list (jsstring * jsval).

(** [if (v)]. *)
Definition truthy (v : jsval) : bool :=
  match v with
  | JUndefined | JNull => false
  | JBool b => b
  | JNum z => negb (z =? 0)%Z
  | JStr s => nonempty s
  | JArr _ | JObj _ => true
  end.

Fixpoint lookup (k : jsstring) (o : jsobject) : option jsval :=
  match o with
  | [] => None
  | (k', v) :: o' => if jsstring_eqb k k' then Some v else lookup k o'
  end.

Definition hasKey (k : jsstring) (o : jsobject) : bool :=
  match lookup k o with Some _ => true | None => false end.

(** [o[k]] on an object: [undefined] for a key it does not have. *)
Definition prop (k : jsstring) (o : jsobject) : jsval :=
  match lookup k o with Some v => v | None => JUndefined end.

(** [o[k] = v]: an existing key keeps its place, a new key goes last. *)
Fixpoint assign (k : jsstring) (v : jsval) (o : jsobject) : jsobject :=
  match o with
  | [] => [(k, v)]
  | (k', v') :: o' =>
      if jsstring_eqb k k' then (k', v) :: o' else (k', v') :: assign k v o'
  end.

(** [delete o[k]]. *)
Definition delete (k : jsstring) (o : jsobject) : jsobject :=
  filter (fun kv => negb (jsstring_eqb k (fst kv))) o.

Definition EXTENDS : jsstring := js "extends".
Definition JSHINTCONFIG : jsstring := js "jshintConfig".
Definition CONFIG : jsstring := js "config".

(** ** lodash's [mergeWith] under the customizer of [readJSHintFile]

    lodash is a dependency, not part of [server.ts]; [_.mergeWith] is
    modelled by value after lodash 4 ([baseMerge], [baseMergeDeep],
    [assignMergeValue]): array and plain object properties are merged
    recursively, other values are overridden by assignment, and the
    customizer is asked first at every level.

    The model covers ordinary values: those of [JSON.parse] in which no
    key is a property name of [Object.prototype] or [length].  On such
    keys lodash reads inherited functions or takes an object for an
    array, and its versions differ. *)

Definition reservedNames : list jsstring :=
  map js [ "length"; "__proto__"; "constructor"; "hasOwnProperty";
           "isPrototypeOf"; "propertyIsEnumerable"; "toLocaleString";
           "toString"; "valueOf"; "__defineGetter__"; "__defineSetter__";
           "__lookupGetter__"; "__lookupSetter__" ]%string.

Definition reserved (k : jsstring) : bool :=
  existsb (jsstring_eqb k) reservedNames.

Fixpoint ordinary (v : jsval) : bool :=
  match v with
  | JUndefined => false
  | JNull | JBool _ | JNum _ | JStr _ => true
  | JArr items =>
      (fix all (l : list jsval) : bool :=
         match l with
         | [] => true
         | x :: l' => ordinary x && all l'
         end) items
  | JObj fields =>
      (fix all (l : jsobject) : bool :=
         match l with
         | [] => true
         | (k, x) :: l' => negb (reserved k) && ordinary x && all l'
         end) fields
  end.

(** The customizer [(baseValue, contentValue) => ...]: an array base value
    gives [baseValue.concat(contentValue)], anything else [undefined]. *)
Definition concatArg (contentValue : jsval) : list jsval :=
  match contentValue with
  | JArr ys => ys
  | v => [v]
  end.

Definition customizer (baseValue contentValue : jsval) : jsval :=
  match baseValue with
  | JArr xs => JArr (xs ++ concatArg contentValue)
  | _ => JUndefined
  end.

(** The value [baseMerge] leaves at a key whose destination value is
    [objValue] and whose source value is [srcValue]: what the customizer
    gives; else two plain objects are merged key by key; else the source
    value (a copy of it) is assigned. *)
Fixpoint mergeValue (srcValue objValue : jsval) {struct srcValue} : jsval :=
  match customizer objValue srcValue with
  | JUndefined =>
      match srcValue with
      | JObj ss =>
          match objValue with
          | JObj os =>
              JObj ((fix fields (ss : jsobject) (os : jsobject) : jsobject :=
                       match ss with
                       | [] => os
                       | (k, v) :: ss' =>
                           fields ss' (assign k (mergeValue v (prop k os)) os)
                       end) ss os)
          | _ => srcValue
          end
      | JUndefined => objValue
      | _ => srcValue
      end
  | newValue => newValue
  end.

(** [baseMerge(object, source)] on two plain objects; it stands for
    lodash on ordinary objects only, which [mergeWith] checks. *)
Fixpoint baseMerge (object source : jsobject) : jsobject :=
  match source with
  | [] => object
  | (k, v) :: source' =>
      baseMerge (assign k (mergeValue v (prop k object)) object) source'
  end.

(** [_.mergeWith(object, source, customizer)]; [None] outside the model:
    a destination or a source that is not an ordinary plain object. *)
Definition mergeWith (object source : jsval) : option jsval :=
  match object, source with
  | JObj os, JObj ss =>
      if ordinary object && ordinary source
      then Some (JObj (baseMerge os ss))
      else None
  | _, _ => None
  end.

(** ** Outcomes and the side channel

    A call returns a value, throws, or falls outside the model; the
    recursive searches take fuel.  The messages shown through
    [connection.window.showErrorMessage] are collected in order. *)

Inductive outcome (A : Type) : Type :=
| Returns (a : A)
| Throws
| OutOfFuel
| Unmodelled.
Arguments Returns {A} a.
Arguments Throws {A}.
Arguments OutOfFuel {A}.
Arguments Unmodelled {A}.

Definition run (A : Type) : Type := (list jsstring * outcome A)%type.

Definition ret {A} (a : A) : run A := ([], Returns a).
Definition throw {A} : run A := ([], Throws).
Definition showErrorMessage (m : jsstring) : run unit := ([m], Returns tt).

Definition bind {A B} (c : run A) (k : A -> run B) : run B :=
  match c with
  | (ms, Returns a) => let (ms', r) := k a in (ms ++ ms', r)
  | (ms, Throws) => (ms, Throws)
  | (ms, OutOfFuel) => (ms, OutOfFuel)
  | (ms, Unmodelled) => (ms, Unmodelled)
  end.

Notation "x <- c ;; k" := (bind c (fun x => k))
  (at level 61, c at next level, right associativity).
Notation "c ;;; k" := (bind c (fun _ => k))
  (at level 61, right associativity).

(** ** The file system *)

Inductive node : Type :=
| File (content : jsstring)
| Directory.

Definition filesystem := jsstring -> option node.

Definition existsSync (fs : filesystem) (p : jsstring) : bool :=
  match fs p with Some _ => true | None => false end.

(** [x.key] on a parsed value: a [TypeError] on [null] and [undefined],
    the own property on an object, [undefined] elsewhere (the keys read
    in [server.ts] are neither array indices nor [length]). *)
Definition member (x : jsval) (key : jsstring) : run jsval :=
  match x with
  | JUndefined | JNull => throw
  | JObj o => ret (prop key o)
  | _ => ret JUndefined
  end.

Definition deleteMember (x : jsval) (key : jsstring) : jsval :=
  match x with
  | JObj o => JObj (delete key o)
  | v => v
  end.

Definition JSHINTRC : jsstring := js ".jshintrc".
Definition JSHINTIGNORE : jsstring := js ".jshintignore".
Definition PACKAGE_JSON : jsstring := js "package.json".

Definition cantLoad (location : jsstring) : jsstring :=
  js "Can't load JSHint configuration from file " ++ location
    ++ js ". Please check the file for syntax errors.".

Definition cantFind (baseFile file : jsstring) : jsstring :=
  js "Can't find JSHint file " ++ baseFile ++ js " extended from " ++ file.

Definition isPrefix (a b : jsstring) : bool :=
  jsstring_eqb a (firstn (List.length a) b).

(** [s.lastIndexOf('/')], [None] for -1. *)
Fixpoint lastIndexOfSlash (s : jsstring) : option nat :=
  match s with
  | [] => None
  | c :: t =>
      match lastIndexOfSlash t with
      | Some i => Some (S i)
      | None => if c =? slash then Some O else None
      end
  end.

Record OptionsResolver : Type := {
  configPath : option jsstring;
  jshintOptions : jsval;
  optionsCache : jsobject
}.

Record FileMatcher : Type := {
  ignorePath : option jsstring;
  defaultExcludePatterns : option (list jsstring);
  excludeCache : list (jsstring * bool)
}.

Definition HAS_OWN_PROPERTY : jsstring := js "hasOwnProperty".
Definition PROTO : jsstring := js "__proto__".

Fixpoint ownBool (k : jsstring) (c : list (jsstring * bool)) : option bool :=
  match c with
  | [] => None
  | (k', b) :: c' => if jsstring_eqb k k' then Some b else ownBool k c'
  end.

(** A path that is configured: neither [null] or [undefined] nor empty. *)
Definition configured (p : option jsstring) : option jsstring :=
  match p with
  | Some s => if nonempty s then Some s else None
  | None => None
  end.

(** ** The server's functions

    What [server.ts] takes from Node and from its dependencies is a
    parameter: [JSON.parse] ([None] for a [SyntaxError]), the [path]
    module, the user's home directory, [minimatch] and [parse-gitignore]. *)

Section Server.

Variable JSON_parse : jsstring -> option jsval.
Variable path_join : jsstring -> jsstring -> jsstring.
Variable path_dirname : jsstring -> jsstring.
Variable path_resolve : jsstring -> jsstring -> jsstring.
Variable getUserHome : option jsstring.
Variable minimatch : jsstring -> jsstring -> bool.
Variable processIgnoreFile : filesystem -> jsstring -> list jsstring.

(** The do-while loop of [locateFile]; [None] when the fuel runs out. *)
Fixpoint locateFile (fuel : nat) (fs : filesystem)
    (directory fileName : jsstring) : option (option jsstring) :=
  match fuel with
  | O => None
  | S fuel' =>
      let location := path_join directory fileName in
      if existsSync fs location then Some (Some location)
      else
        let parent := path_dirname directory in
        if jsstring_eqb parent directory then Some None
        else locateFile fuel' fs parent fileName
  end.

Definition locate (fuel : nat) (fs : filesystem)
    (directory fileName : jsstring) : run (option jsstring) :=
  match locateFile fuel fs directory fileName with
  | Some r => ret r
  | None => ([], OutOfFuel)
  end.

Definition location (file : jsstring) (extendedFrom : option jsstring)
    : jsstring :=
  match configured extendedFrom with
  | Some parent => file ++ js " extended from " ++ parent
  | None => file
  end.

(** [readJsonFile]: the [try] covers the read and the parse. *)
Definition readJsonFile (fs : filesystem) (file : jsstring)
    (extendedFrom : option jsstring) : list jsstring * jsval :=
  match fs file with
  | Some (File content) =>
      match JSON_parse (stripComments content) with
      | Some v => ([], v)
      | None => ([cantLoad (location file extendedFrom)], JObj [])
      end
  | _ => ([cantLoad (location file extendedFrom)], JObj [])
  end.

(** A file that holds a JSON object. *)
Definition holds (fs : filesystem) (file : jsstring) (o : jsobject)
    : Prop :=
  exists content,
    fs file = Some (File content)
    /\ JSON_parse (stripComments content) = Some (JObj o).

Definition readJson (fs : filesystem) (file : jsstring)
    (extendedFrom : option jsstring) : run jsval :=
  let (ms, v) := readJsonFile fs file extendedFrom in (ms, Returns v).

(** [path.resolve(path.dirname(file), content.extends)] throws on an
    [extends] that is not a string. *)
Definition resolveBase (file : jsstring) (ext : jsval) : run jsstring :=
  match ext with
  | JStr e => ret (path_resolve (path_dirname file) e)
  | _ => throw
  end.

Definition merged (base content : jsval) : run jsval :=
  match mergeWith base content with
  | Some v => ret v
  | None => ([], Unmodelled)
  end.

Fixpoint readJSHintFile (fuel : nat) (fs : filesystem) (file : jsstring)
    (extendedFrom : option jsstring) : run jsval :=
  match fuel with
  | O => ([], OutOfFuel)
  | S fuel' =>
      content <- readJson fs file extendedFrom ;;
      ext <- member content EXTENDS ;;
      if truthy ext then
        baseFile <- resolveBase file ext ;;
        content' <-
          (if existsSync fs baseFile then
             base <- readJSHintFile fuel' fs baseFile (Some file) ;;
             merged base content
           else
             showErrorMessage (cantFind baseFile file) ;;;
             ret content) ;;
        ret (deleteMember content' EXTENDS)
      else ret content
  end.

(** [jshintOptions && jshintOptions.config && fs.existsSync(...)]:
    the legacy config file when all three hold. *)
Definition legacyConfig (fs : filesystem) (options : jsval)
    : option jsstring :=
  if truthy options then
    match options with
    | JObj o =>
        match prop CONFIG o with
        | JStr c => if nonempty c && existsSync fs c then Some c else None
        | _ => None
        end
    | _ => None
    end
  else None.

Definition pinned (fs : filesystem) (p : option jsstring)
    : option jsstring :=
  match configured p with
  | Some c => if existsSync fs c then Some c else None
  | None => None
  end.

Definition readHome (fuel : nat) (fs : filesystem) (options : jsval)
    : run jsval :=
  match configured getUserHome with
  | Some home =>
      let file := path_join home JSHINTRC in
      if existsSync fs file then readJSHintFile fuel fs file None
      else ret options
  | None => ret options
  end.

Definition readProject (fuel : nat) (fs : filesystem) (options : jsval)
    (fsPath : jsstring) : run jsval :=
  configFile <- locate fuel fs fsPath JSHINTRC ;;
  match configured configFile with
  | Some file => readJSHintFile fuel fs file None
  | None => readHome fuel fs options
  end.

Definition readOptions (fuel : nat) (fs : filesystem)
    (this : OptionsResolver) (fsPath : jsstring) : run jsval :=
  match pinned fs (configPath this) with
  | Some c => readJson fs c None
  | None =>
      let options := jshintOptions this in
      match legacyConfig fs options with
      | Some c => readJson fs c None
      | None =>
          if nonempty fsPath then
            packageFile <- locate fuel fs fsPath PACKAGE_JSON ;;
            match configured packageFile with
            | Some file =>
                content <- readJson fs file None ;;
                config <- member content JSHINTCONFIG ;;
                if truthy config then ret config
                else readProject fuel fs options fsPath
            | None => readProject fuel fs options fsPath
            end
          else readHome fuel fs options
      end
  end.

(** *** OptionsResolver *)

Definition newOptionsResolver : OptionsResolver :=
  {| configPath := None; jshintOptions := JNull; optionsCache := [] |}.

Definition configure (path : option jsstring) (options : jsval)
    (this : OptionsResolver) : OptionsResolver :=
  {| configPath := path; jshintOptions := options; optionsCache := [] |}.

Definition clear (options : jsval) (this : OptionsResolver)
    : OptionsResolver :=
  {| configPath := configPath this;
     jshintOptions := jshintOptions this;
     optionsCache := [] |}.

(** [getOptions]: the resolver after the call, the messages shown and
    the outcome.  A falsy cached value counts as a miss. *)
Definition getOptions (fuel : nat) (fs : filesystem)
    (this : OptionsResolver) (fsPath : jsstring)
    : OptionsResolver * run jsval :=
  let result := prop fsPath (optionsCache this) in
  if truthy result then (this, ret result)
  else
    match readOptions fuel fs this fsPath with
    | (ms, Returns r) =>
        ({| configPath := configPath this;
            jshintOptions := jshintOptions this;
            optionsCache := assign fsPath r (optionsCache this) |},
         (ms, Returns r))
    | failed => (this, failed)
    end.

(** *** FileMatcher *)

Definition newFileMatcher : FileMatcher :=
  {| ignorePath := None; defaultExcludePatterns := None;
     excludeCache := [] |}.

(** [_.keys(_.pickBy(obj, value => value === true))]. *)
Definition isTrue (v : jsval) : bool :=
  match v with JBool true => true | _ => false end.

Definition pickTrueKeys (obj : option jsobject) : list jsstring :=
  match obj with
  | Some o => map fst (filter (fun kv => isTrue (snd kv)) o)
  | None => []
  end.

Definition configureMatcher (path : option jsstring)
    (exclude : option jsobject) (this : FileMatcher) : FileMatcher :=
  {| ignorePath := path;
     defaultExcludePatterns := Some (pickTrueKeys exclude);
     excludeCache := [] |}.

Definition clearMatcher (exclude : option jsobject) (this : FileMatcher)
    : FileMatcher :=
  {| ignorePath := ignorePath this;
     defaultExcludePatterns := defaultExcludePatterns this;
     excludeCache := [] |}.

(** [relativeTo]; a [null] or [undefined] folder is falsy like the
    empty string. *)
Definition relativeTo (fsPath folder : jsstring) : jsstring :=
  if nonempty folder && isPrefix folder fsPath then
    let cuttingPoint := List.length folder in
    let cuttingPoint :=
      if (cuttingPoint <? List.length fsPath)%nat
         && (nth cuttingPoint fsPath 0 =? slash)
      then S cuttingPoint else cuttingPoint in
    skipn cuttingPoint fsPath
  else fsPath.

Definition folderOf (fsPath : jsstring) : jsstring :=
  match lastIndexOfSlash fsPath with
  | Some index => firstn index fsPath
  | None => fsPath
  end.

(** [match]; [_.some] of [null] is [false]. *)
Definition matchPatterns (excludePatterns : option (list jsstring))
    (path root : jsstring) : bool :=
  let relativePath := relativeTo path root in
  match excludePatterns with
  | Some ps => existsb (fun pattern => minimatch relativePath pattern) ps
  | None => false
  end.

(** The cache is a plain [{}]: writing the key [__proto__] adds no own
    property, and an own [hasOwnProperty] shadows the method called on
    the next lookup. *)
Definition remember (fsPath : jsstring) (b : bool)
    (cache : list (jsstring * bool)) : list (jsstring * bool) :=
  if jsstring_eqb fsPath PROTO then cache
  else
    (fsPath, b)
      :: filter (fun kv => negb (jsstring_eqb fsPath (fst kv))) cache.

Definition shouldBeExcluded (fuel : nat) (fs : filesystem)
    (this : FileMatcher) (fsPath root : jsstring) : run bool :=
  match pinned fs (ignorePath this) with
  | Some c => ret (matchPatterns (Some (processIgnoreFile fs c)) fsPath root)
  | None =>
      ignoreFile <- locate fuel fs fsPath JSHINTIGNORE ;;
      match configured ignoreFile with
      | Some file =>
          ret (matchPatterns (Some (processIgnoreFile fs file)) fsPath
                 (folderOf file))
      | None =>
          ret (matchPatterns (defaultExcludePatterns this) fsPath root)
      end
  end.

Definition excludes (fuel : nat) (fs : filesystem) (this : FileMatcher)
    (fsPath root : jsstring) : FileMatcher * run bool :=
  if nonempty fsPath then
    match ownBool HAS_OWN_PROPERTY (excludeCache this) with
    | Some _ => (this, throw)
    | None =>
        match ownBool fsPath (excludeCache this) with
        | Some cached => (this, ret cached)
        | None =>
            match shouldBeExcluded fuel fs this fsPath root with
            | (ms, Returns b) =>
                ({| ignorePath := ignorePath this;
                    defaultExcludePatterns := defaultExcludePatterns this;
                    excludeCache := remember fsPath b (excludeCache this) |},
                 (ms, Returns b))
            | failed => (this, failed)
            end
        end
    end
  else (this, ret true).

End Server.

(** ** A sample environment

    Concrete instances of the parameters, for running the model on
    examples: a parser for a subset of JSON (no escapes, no fractions),
    [path] on absolute POSIX paths, a segment-wise glob matcher and a
    line-wise ignore-file reader. *)

Module Sample.

Definition isSpace (c : N) : bool :=
  (c =? 32) || (c =? 9) || (c =? lf) || (c =? cr).

Fixpoint skipSpace (s : jsstring) : jsstring :=
  match s with
  | c :: t => if isSpace c then skipSpace t else s
  | [] => []
  end.

Fixpoint literal (l s : jsstring) : option jsstring :=
  match l, s with
  | [], _ => Some s
  | x :: l', y :: s' => if x =? y then literal l' s' else None
  | _ :: _, [] => None
  end.

Fixpoint stringBody (s : jsstring) : option (jsstring * jsstring) :=
  match s with
  | [] => None
  | c :: t =>
      if c =? dquote then Some ([], t)
      else if (c =? backslash) || (c <? 32) then None
      else match stringBody t with
           | Some (m, rest) => Some (c :: m, rest)
           | None => None
           end
  end.

Definition isDigit (c : N) : bool := (48 <=? c) && (c <=? 57).

Fixpoint digits (acc : Z) (s : jsstring) : Z * jsstring :=
  match s with
  | c :: t =>
      if isDigit c then digits (10 * acc + Z.of_N (c - 48))%Z t
      else (acc, s)
  | [] => (acc, [])
  end.

Definition number (s : jsstring) : option (Z * jsstring) :=
  match s with
  | c :: t =>
      if isDigit c then
        if (c =? 48) && match t with d :: _ => isDigit d | [] => false end
        then None
        else
          let (z, rest) := digits 0%Z s in
          match rest with
          | d :: _ =>
              if (d =? 46) || (d =? 69) || (d =? 101) then None
              else Some (z, rest)
          | [] => Some (z, rest)
          end
      else None
  | [] => None
  end.

Fixpoint value (fuel : nat) (s : jsstring) : option (jsval * jsstring) :=
  match fuel with
  | O => None
  | S fuel' =>
      match skipSpace s with
      | [] => None
      | c :: t =>
          if c =? 123 then
            match skipSpace t with
            | 125 :: rest => Some (JObj [], rest)
            | _ => members fuel' t []
            end
          else if c =? 91 then
            match skipSpace t with
            | 93 :: rest => Some (JArr [], rest)
            | _ => elements fuel' t []
            end
          else if c =? dquote then
            match stringBody t with
            | Some (m, rest) => Some (JStr m, rest)
            | None => None
            end
          else if c =? 45 then
            match number t with
            | Some (z, rest) => Some (JNum (- z), rest)
            | None => None
            end
          else if isDigit c then
            match number (c :: t) with
            | Some (z, rest) => Some (JNum z, rest)
            | None => None
            end
          else
            match literal (js "null") (c :: t) with
            | Some rest => Some (JNull, rest)
            | None =>
                match literal (js "true") (c :: t) with
                | Some rest => Some (JBool true, rest)
                | None =>
                    match literal (js "false") (c :: t) with
                    | Some rest => Some (JBool false, rest)
                    | None => None
                    end
                end
            end
      end
  end

with members (fuel : nat) (s : jsstring) (acc : jsobject)
    : option (jsval * jsstring) :=
  match fuel with
  | O => None
  | S fuel' =>
      match skipSpace s with
      | 34 :: t =>
          match stringBody t with
          | Some (k, rest) =>
              match skipSpace rest with
              | 58 :: rest1 =>
                  match value fuel' rest1 with
                  | Some (v, rest2) =>
                      match skipSpace rest2 with
                      | 44 :: rest3 => members fuel' rest3 (assign k v acc)
                      | 125 :: rest3 => Some (JObj (assign k v acc), rest3)
                      | _ => None
                      end
                  | None => None
                  end
              | _ => None
              end
          | None => None
          end
      | _ => None
      end
  end

with elements (fuel : nat) (s : jsstring) (acc : list jsval)
    : option (jsval * jsstring) :=
  match fuel with
  | O => None
  | S fuel' =>
      match value fuel' s with
      | Some (v, rest) =>
          match skipSpace rest with
          | 44 :: rest1 => elements fuel' rest1 (acc ++ [v])
          | 93 :: rest1 => Some (JArr (acc ++ [v]), rest1)
          | _ => None
          end
      | None => None
      end
  end.

Definition JSON_parse (s : jsstring) : option jsval :=
  match value (S (List.length s)) s with
  | Some (v, rest) =>
      match skipSpace rest with
      | [] => Some v
      | _ => None
      end
  | None => None
  end.

Definition path_dirname (p : jsstring) : jsstring :=
  match lastIndexOfSlash p with
  | Some O => [slash]
  | Some i => firstn i p
  | None => js "."
  end.

Definition path_join (d f : jsstring) : jsstring :=
  if jsstring_eqb d [slash] then slash :: f else d ++ slash :: f.

Definition path_resolve (d e : jsstring) : jsstring :=
  match e with
  | 47 :: _ => e
  | _ => path_join d e
  end.

Fixpoint segments (cur : jsstring) (s : jsstring) : list jsstring :=
  match s with
  | [] => [rev cur]
  | c :: t =>
      if c =? slash then rev cur :: segments [] t
      else segments (c :: cur) t
  end.

(** One segment against a pattern segment where [*] stands for any run
    of characters. *)
Fixpoint segment (p : jsstring) : jsstring -> bool :=
  match p with
  | [] => fun x => match x with [] => true | _ => false end
  | c :: p' =>
      if c =? star then
        fix any (x : jsstring) : bool :=
          segment p' x || match x with [] => false | _ :: x' => any x' end
      else
        fun x =>
          match x with
          | d :: x' => (c =? d) && segment p' x'
          | [] => false
          end
  end.

Fixpoint glob (ps : list jsstring) : list jsstring -> bool :=
  match ps with
  | [] => fun xs => match xs with [] => true | _ => false end
  | p :: ps' =>
      if jsstring_eqb p (js "**") then
        fix deep (xs : list jsstring) : bool :=
          glob ps' xs || match xs with [] => false | _ :: xs' => deep xs' end
      else
        fun xs =>
          match xs with
          | x :: xs' => segment p x && glob ps' xs'
          | [] => false
          end
  end.

Definition minimatch (path pattern : jsstring) : bool :=
  glob (segments [] pattern) (segments [] path).

Fixpoint lines (cur : jsstring) (s : jsstring) : list jsstring :=
  match s with
  | [] => [rev cur]
  | c :: t =>
      if c =? lf then rev cur :: lines [] t else lines (c :: cur) t
  end.

Definition processIgnoreFile (fs : filesystem) (file : jsstring)
    : list jsstring :=
  match fs file with
  | Some (File content) =>
      filter (fun l => match l with [] => false | c :: _ => negb (c =? 35) end)
        (lines [] content)
  | _ => []
  end.

(** A file system given by a list of files. *)
Fixpoint disk (files : list (jsstring * jsstring)) : filesystem :=
  fun p =>
    match files with
    | [] => None
    | (name, content) :: files' =>
        if jsstring_eqb p name then Some (File content) else disk files' p
    end.

(** Text with [`] standing for the double quote. *)
Definition text (s : string) : jsstring :=
  map (fun c => if c =? 96 then dquote else c) (js s).

End Sample.

(** [x] has an own key [k]. *)
Definition hasMember (x : jsval) (k : jsstring) : bool :=
  match x with
  | JObj o => hasKey k o
  | _ => false
  end.

(** An object that carries an [extends] key with a falsy value. *)
Definition falsyExtends (x : jsval) : bool :=
  match x with
  | JObj o => hasKey EXTENDS o && negb (truthy (prop EXTENDS o))
  | _ => false
  end.

Definition ordinaryFields (l : jsobject) : bool :=
  forallb (fun kv => negb (reserved (fst kv)) && ordinary (snd kv)) l.

Definition isArray (v : jsval) : bool :=
  match v with JArr _ => true | _ => false end.

(** [null], booleans, numbers and strings. *)
Definition isScalar (v : jsval) : bool :=
  match v with
  | JNull | JBool _ | JNum _ | JStr _ => true
  | _ => false
  end.

(** ** Sample runs *)

Module Scenario.
Import Sample.

Definition home : option jsstring := Some (js "/home/u").

Definition readJSHintFile :=
  readJSHintFile Sample.JSON_parse path_dirname path_resolve.
Definition getOptions :=
  getOptions Sample.JSON_parse path_join path_dirname path_resolve home.
Definition excludes :=
  excludes path_join path_dirname Sample.minimatch processIgnoreFile.

(** [/p/.jshintrc] extends [/p/b.json], which extends [/p/c.json]. *)
Definition childText : jsstring :=
  text "{`extends`: `b.json`, `undef`: true, `predef`: [`a`], `globals`: {`x`: true}}".
Definition parentText : jsstring :=
  text "{`extends`: `c.json`, `undef`: false, `predef`: [`b`], `globals`: {`y`: true}}".
Definition grandparentText : jsstring :=
  text "{`predef`: [`c`], `globals`: {`z`: false}, `curly`: true}".

Definition chain : filesystem :=
  disk [ (js "/p/.jshintrc", childText);
         (js "/p/b.json", parentText);
         (js "/p/c.json", grandparentText) ].

Definition childObject : jsobject :=
  [ (js "extends", JStr (js "b.json"));
    (js "undef", JBool true);
    (js "predef", JArr [JStr (js "a")]);
    (js "globals", JObj [(js "x", JBool true)]) ].
Definition parentObject : jsobject :=
  [ (js "extends", JStr (js "c.json"));
    (js "undef", JBool false);
    (js "predef", JArr [JStr (js "b")]);
    (js "globals", JObj [(js "y", JBool true)]) ].
Definition grandparentObject : jsobject :=
  [ (js "predef", JArr [JStr (js "c")]);
    (js "globals", JObj [(js "z", JBool false)]);
    (js "curly", JBool true) ].

(** A pinned file that names a parent, next to a project file. *)
Definition pinnedDisk : filesystem :=
  disk [ (js "/cfg.json", text "{`extends`: `b.json`, `undef`: true}");
         (js "/p/.jshintrc", text "{`undef`: false}") ].

Definition pinnedResolver : OptionsResolver :=
  configure (Some (js "/cfg.json")) (JObj []) newOptionsResolver.

(** A project file whose whole content is [null]. *)
Definition nullProject : filesystem :=
  disk [ (js "/p/.jshintrc", js "null") ].

(** No configuration anywhere, then a project file appears. *)
Definition emptyDisk : filesystem := disk [].
Definition laterDisk : filesystem :=
  disk [ (js "/p/.jshintrc", text "{`undef`: true}") ].

(** A child whose parent is missing. *)
Definition orphan : filesystem :=
  disk [ (js "/p/.jshintrc", text "{`extends`: `gone.json`, `undef`: true}") ].


Definition buildMatcher : FileMatcher :=
  configureMatcher None
    (Some [ (js "build/**", JBool true) ])
    newFileMatcher.

Definition ignoreDisk : filesystem :=
  disk [ (js "/p/sub/.jshintignore", js "gen/*.js") ].

End Scenario.

(** ** Diagnostics

    [JSHintError] as the lint engine reports it and [Diagnostic] as the
    server sends it.  Positions are integral numbers; a [code] that is
    [undefined] is falsy like the empty string. *)

Record JSHintError : Type := {
  errId : jsstring;
  errRaw : jsstring;
  errCode : jsstring;
  errLine : Z;
  errCharacter : Z;
  errScope : jsstring;
  errReason : jsstring
}.

Inductive DiagnosticSeverity : Type :=
| SeverityError
| SeverityWarning.

Record Position : Type := {
  posLine : Z;
  posCharacter : Z
}.

Record Range : Type := {
  rangeStart : Position;
  rangeEnd : Position
}.

Record Diagnostic : Type := {
  message : jsstring;
  severity : DiagnosticSeverity;
  source : jsstring;
  diagCode : jsstring;
  range : Range
}.

(** [!problem.code || problem.code[0] === 'E']. *)
Definition getSeverity (problem : JSHintError) : DiagnosticSeverity :=
  match errCode problem with
  | [] => SeverityError
  | c :: _ => if c =? 69 then SeverityError else SeverityWarning
  end.

Definition makeDiagnostic (problem : JSHintError) : Diagnostic :=
  let line := if (errLine problem <=? 0)%Z then 1%Z else errLine problem in
  let character :=
    if (errCharacter problem <=? 0)%Z then 1%Z else errCharacter problem in
  let position :=
    {| posLine := (line - 1)%Z; posCharacter := (character - 1)%Z |} in
  {| message :=
       errReason problem
         ++ (if nonempty (errCode problem)
             then js " (" ++ errCode problem ++ js ")" else []);
     severity := getSeverity problem;
     source := js "jshint";
     diagCode := errCode problem;
     range := {| rangeStart := position; rangeEnd := position |} |}.

(** ** Linter

    The part of [Linter] that decides what is linted and what is sent:
    [lastSegment], the watched-files handler up to its call of
    [validateAll], [lintContent] and [validate].  [Files.uriToFilePath]
    and the lint engine ([JSHINT], read back through [JSHINT.errors], which
    may be falsy and may hold [null] entries) are parameters. *)

Record Linter : Type := {
  options : OptionsResolver;
  fileMatcher : FileMatcher;
  workspaceRoot : jsstring
}.

Definition GLOBALS : jsstring := js "globals".

Definition lastSegment (fsPath : jsstring) : jsstring :=
  match lastIndexOfSlash fsPath with
  | Some index => skipn (S index) fsPath
  | None => fsPath
  end.

(** The loop of the [onDidChangeWatchedFiles] handler over the changed
    uris: the linter after it and [needsValidating]. *)
Fixpoint watchedFilesChanged (changes : list jsstring) (this : Linter)
    (needsValidating : bool) : Linter * bool :=
  match changes with
  | [] => (this, needsValidating)
  | uri :: changes' =>
      if jsstring_eqb (lastSegment uri) JSHINTRC then
        watchedFilesChanged changes'
          {| options := clear JUndefined (options this);
             fileMatcher := fileMatcher this;
             workspaceRoot := workspaceRoot this |} true
      else if jsstring_eqb (lastSegment uri) JSHINTIGNORE then
        watchedFilesChanged changes'
          {| options := options this;
             fileMatcher := clearMatcher None (fileMatcher this);
             workspaceRoot := workspaceRoot this |} true
      else watchedFilesChanged changes' this needsValidating
  end.

Definition onDidChangeWatchedFiles (changes : list jsstring) (this : Linter)
    : Linter * bool :=
  watchedFilesChanged changes this false.

(** The diagnostics pushed for [JSHINT.errors]. *)
Definition diagnosticsOf (errors : option (list (option JSHintError)))
    : list Diagnostic :=
  match errors with
  | Some es =>
      flat_map (fun error =>
                  match error with
                  | Some problem => [makeDiagnostic problem]
                  | None => []
                  end) es
  | None => []
  end.

Section LinterModel.

Variable JSON_parse : jsstring -> option jsval.
Variable path_join : jsstring -> jsstring -> jsstring.
Variable path_dirname : jsstring -> jsstring.
Variable path_resolve : jsstring -> jsstring -> jsstring.
Variable getUserHome : option jsstring.
Variable minimatch : jsstring -> jsstring -> bool.
Variable processIgnoreFile : filesystem -> jsstring -> list jsstring.
Variable uriToFilePath : jsstring -> option jsstring.
Variable JSHINT :
  jsstring -> jsval -> jsval -> option (list (option JSHintError)).

(** [x || {}]. *)
Definition orEmpty (x : jsval) : jsval :=
  if truthy x then x else JObj [].

(** [options.globals] on a truthy [options]. *)
Definition globalsOf (options : jsval) : jsval :=
  match options with
  | JObj o => prop GLOBALS o
  | _ => JUndefined
  end.

Definition lintContent (fuel : nat) (fs : filesystem)
    (this : OptionsResolver) (content fsPath : jsstring)
    : OptionsResolver * run (option (list (option JSHintError))) :=
  match getOptions JSON_parse path_join path_dirname path_resolve
          getUserHome fuel fs this fsPath with
  | (this', (ms, Returns result)) =>
      let options := orEmpty result in
      (this',
       (ms, Returns (JSHINT content options (orEmpty (globalsOf options)))))
  | (this', (ms, Throws)) => (this', (ms, Throws))
  | (this', (ms, OutOfFuel)) => (this', (ms, OutOfFuel))
  | (this', (ms, Unmodelled)) => (this', (ms, Unmodelled))
  end.

(** The path [validate] works on: the document's, or the workspace root
    where the uri has none. *)
Definition documentPath (this : Linter) (uri : jsstring) : jsstring :=
  match configured (uriToFilePath uri) with
  | Some fsPath => fsPath
  | None => workspaceRoot this
  end.

(** [validate]: the linter after the call, the messages shown and the
    diagnostics sent for the document. *)
Definition validate (fuel : nat) (fs : filesystem) (this : Linter)
    (uri text : jsstring) : Linter * run (list Diagnostic) :=
  let fsPath := documentPath this uri in
  match excludes path_join path_dirname minimatch processIgnoreFile
          fuel fs (fileMatcher this) fsPath (workspaceRoot this) with
  | (matcher, (ms, Returns excluded)) =>
      if excluded then
        ({| options := options this; fileMatcher := matcher;
            workspaceRoot := workspaceRoot this |},
         (ms, Returns []))
      else
        match lintContent fuel fs (options this) text fsPath with
        | (resolver, (ms', Returns errors)) =>
            ({| options := resolver; fileMatcher := matcher;
                workspaceRoot := workspaceRoot this |},
             (ms ++ ms', Returns (diagnosticsOf errors)))
        | (resolver, (ms', Throws)) =>
            ({| options := resolver; fileMatcher := matcher;
                workspaceRoot := workspaceRoot this |}, (ms ++ ms', Throws))
        | (resolver, (ms', OutOfFuel)) =>
            ({| options := resolver; fileMatcher := matcher;
                workspaceRoot := workspaceRoot this |},
             (ms ++ ms', OutOfFuel))
        | (resolver, (ms', Unmodelled)) =>
            ({| options := resolver; fileMatcher := matcher;
                workspaceRoot := workspaceRoot this |},
             (ms ++ ms', Unmodelled))
        end
  | (matcher, (ms, Throws)) =>
      ({| options := options this; fileMatcher := matcher;
          workspaceRoot := workspaceRoot this |}, (ms, Throws))
  | (matcher, (ms, OutOfFuel)) =>
      ({| options := options this; fileMatcher := matcher;
          workspaceRoot := workspaceRoot this |}, (ms, OutOfFuel))
  | (matcher, (ms, Unmodelled)) =>
      ({| options := options this; fileMatcher := matcher;
          workspaceRoot := workspaceRoot this |}, (ms, Unmodelled))
  end.

End LinterModel.

(** The directory reached after [n] steps of [path.dirname]. *)
Definition ancestor (path_dirname : jsstring -> jsstring) (n : nat)
    (directory : jsstring) : jsstring :=
  Nat.iter n path_dirname directory.

Definition nonNegative (p : Position) : Prop :=
  (0 <= posLine p)%Z /\ (0 <= posCharacter p)%Z.

(** A character the atom [.] matches. *)
Definition plain (c : N) : Prop := isLineTerminator c = false.

(** A character of a block comment that is not a star, a lone carriage
    return or a Unicode line separator. *)
Definition inBlock (c : N) : Prop :=
  c <> star /\ (c = lf \/ isLineTerminator c = false).

(** The type of the lint engine. *)
Definition engine : Type :=
  jsstring -> jsval -> jsval -> option (list (option JSHintError)).

(** The exclude cache holds the answer [b] for [fsPath] and no entry
    that shadows [hasOwnProperty]. *)
Definition remembers (this : FileMatcher) (fsPath : jsstring) (b : bool)
    : Prop :=
  ownBool HAS_OWN_PROPERTY (excludeCache this) = None
  /\ ownBool fsPath (excludeCache this) = Some b.

(** No [.jshintrc] in the home folder, or no home folder. *)
Definition noHomeFile (path_join : jsstring -> jsstring -> jsstring)
    (getUserHome : option jsstring) (fs : filesystem) : Prop :=
  forall home,
    configured getUserHome = Some home ->
    existsSync fs (path_join home JSHINTRC) = false.

(** ** More sample runs *)

Module Tour.
Import Sample.

Definition uriToFilePath (uri : jsstring) : option jsstring :=
  literal (js "file://") uri.

(** An engine that reports one unused variable, one error at position
    zero and a [null] entry, whatever it is given. *)
Definition unused : JSHintError :=
  {| errId := js "(error)"; errRaw := js "unused"; errCode := js "W098";
     errLine := 3; errCharacter := 7; errScope := js "(main)";
     errReason := js "'x' is defined but never used." |}.

Definition fatal : JSHintError :=
  {| errId := js "(error)"; errRaw := js "bad option"; errCode := js "E001";
     errLine := 0; errCharacter := 0; errScope := js "(main)";
     errReason := js "Bad option." |}.

Definition JSHINT (content : jsstring) (options globals : jsval)
    : option (list (option JSHintError)) :=
  Some [Some unused; None; Some fatal].

Definition validate :=
  validate Sample.JSON_parse path_join path_dirname path_resolve
    Scenario.home Sample.minimatch processIgnoreFile uriToFilePath JSHINT.

Definition lintContent :=
  lintContent Sample.JSON_parse path_join path_dirname path_resolve
    Scenario.home JSHINT.

Definition readOptions :=
  readOptions Sample.JSON_parse path_join path_dirname path_resolve
    Scenario.home.

Definition linter : Linter :=
  {| options := newOptionsResolver;
     fileMatcher := Scenario.buildMatcher;
     workspaceRoot := js "/p" |}.

(** A file that extends itself. *)
Definition selfDisk : filesystem :=
  disk [ (js "/p/.jshintrc", text "{`extends`: `.jshintrc`, `undef`: true}") ].

(** A child whose parent does not parse. *)
Definition brokenParentDisk : filesystem :=
  disk [ (js "/p/.jshintrc", text "{`extends`: `b.json`, `undef`: true}");
         (js "/p/b.json", text "{`undef`: ") ].

(** [extends] values that are not a non-empty string. *)
Definition emptyExtendsDisk : filesystem :=
  disk [ (js "/p/.jshintrc", text "{`extends`: ``, `undef`: true}") ].
Definition listExtendsDisk : filesystem :=
  disk [ (js "/p/.jshintrc", text "{`extends`: [`b.json`], `undef`: true}") ].

(** A [package.json] with a [jshintConfig] beside a [.jshintrc]. *)
Definition packageDisk : filesystem :=
  disk [ (js "/p/package.json",
          text "{`name`: `p`, `jshintConfig`: {`extends`: `x`, `curly`: true}}");
         (js "/p/.jshintrc", text "{`undef`: true}") ].

Definition brokenPackageDisk : filesystem :=
  disk [ (js "/p/package.json", text "{`name`: ");
         (js "/p/.jshintrc", text "{`undef`: true}") ].

(** A legacy [config] path in the options. *)
Definition legacyDisk : filesystem :=
  disk [ (js "/old.json", text "{`extends`: `b.json`, `eqeqeq`: true}");
         (js "/p/.jshintrc", text "{`undef`: true}") ].
Definition legacyResolver : OptionsResolver :=
  configure None (JObj [(js "config", JStr (js "/old.json"))])
    newOptionsResolver.

(** A home file only. *)
Definition homeDisk : filesystem :=
  disk [ (js "/home/u/.jshintrc", text "{`undef`: true}") ].

(** An explicit ignore file beside a [.jshintignore]. *)
Definition pinnedIgnoreDisk : filesystem :=
  disk [ (js "/ignore.txt", js "src/*.js");
         (js "/p/.jshintignore", js "build/**") ].

Definition pinnedMatcher : FileMatcher :=
  configureMatcher (Some (js "/ignore.txt")) None newFileMatcher.

End Tour.

(** * Properties *)

(** ** Strings and objects *)

Lemma jsstring_eqb_eq (a b : jsstring) : jsstring_eqb a b = true <-> a = b.
Proof.
  revert b; induction a as [|x a IH]; intros [|y b]; simpl;
    try (split; [discriminate | congruence]); try tauto.
  rewrite andb_true_iff, N.eqb_eq, IH. split.
  - intros [-> ->]; reflexivity.
  - intros H; injection H; auto.
Qed.

Lemma jsstring_eqb_refl (a : jsstring) : jsstring_eqb a a = true.
Proof. now apply jsstring_eqb_eq. Qed.

Lemma jsstring_eqb_neq (a b : jsstring) : a <> b -> jsstring_eqb a b = false.
Proof.
  intros H. destruct (jsstring_eqb a b) eqn:E; [|reflexivity].
  apply jsstring_eqb_eq in E. contradiction.
Qed.

Lemma lookup_assign_same k v o : lookup k (assign k v o) = Some v.
Proof.
  induction o as [|[k' v'] o IH]; simpl.
  - now rewrite jsstring_eqb_refl.
  - destruct (jsstring_eqb k k') eqn:E; simpl; rewrite E; auto.
Qed.

Lemma lookup_assign_other k k' v o :
  k <> k' -> lookup k (assign k' v o) = lookup k o.
Proof.
  intros Hne. induction o as [|[k1 v1] o IH]; simpl.
  - now rewrite (jsstring_eqb_neq _ _ Hne).
  - destruct (jsstring_eqb k' k1) eqn:E; simpl.
    + apply jsstring_eqb_eq in E; subst k1.
      now rewrite (jsstring_eqb_neq _ _ Hne).
    + now rewrite IH.
Qed.

Lemma lookup_delete_same k o : lookup k (delete k o) = None.
Proof.
  induction o as [|[k' v'] o IH]; simpl; [reflexivity|].
  destruct (jsstring_eqb k k') eqn:E; simpl; [assumption|].
  now rewrite E.
Qed.

Lemma lookup_delete_other k k' o :
  k <> k' -> lookup k (delete k' o) = lookup k o.
Proof.
  intros Hne. induction o as [|[k1 v1] o IH]; simpl; [reflexivity|].
  destruct (jsstring_eqb k' k1) eqn:E; simpl.
  - apply jsstring_eqb_eq in E; subst k1.
    now rewrite (jsstring_eqb_neq _ _ Hne).
  - now rewrite IH.
Qed.

Lemma hasKey_delete k o : hasKey k (delete k o) = false.
Proof. unfold hasKey. now rewrite lookup_delete_same. Qed.

Lemma lookup_None_notin k (o : jsobject) :
  ~ In k (map fst o) -> lookup k o = None.
Proof.
  induction o as [|[k' v'] o IH]; simpl; [reflexivity|].
  intros H. rewrite jsstring_eqb_neq by (intros ->; apply H; now left).
  apply IH. intros Hin; apply H; now right.
Qed.

(** ** The merge *)

Lemma mergeValue_onto_array src xs :
  mergeValue src (JArr xs) = JArr (xs ++ concatArg src).
Proof. destruct src; reflexivity. Qed.

Lemma mergeValue_scalar src obj :
  isScalar src = true -> isArray obj = false -> mergeValue src obj = src.
Proof. destruct src; try discriminate; destruct obj; try discriminate; reflexivity. Qed.

Lemma mergeValue_objects ss os :
  mergeValue (JObj ss) (JObj os) = JObj (baseMerge os ss).
Proof.
  simpl. f_equal. revert os.
  induction ss as [|[k v] ss IH]; intros os; simpl; [reflexivity|].
  apply IH.
Qed.

(** A key the source has once ends up with the merge of the two values;
    a key it lacks keeps the destination's value. *)
Lemma lookup_baseMerge k source :
  NoDup (map fst source) ->
  forall object,
    lookup k (baseMerge object source) =
    match lookup k source with
    | Some v => Some (mergeValue v (prop k object))
    | None => lookup k object
    end.
Proof.
  induction source as [|[k1 v1] source IH]; intros Hnd object; simpl;
    [reflexivity|].
  inversion Hnd as [|? ? Hnotin Hnd']; subst.
  rewrite (IH Hnd').
  destruct (jsstring_eqb k k1) eqn:E.
  - apply jsstring_eqb_eq in E; subst k1.
    rewrite (lookup_None_notin _ _ Hnotin).
    apply lookup_assign_same.
  - assert (Hne : k <> k1)
      by (intros ->; rewrite jsstring_eqb_refl in E; discriminate).
    unfold prop. rewrite (lookup_assign_other _ _ _ _ Hne). reflexivity.
Qed.

Lemma prop_delete_other k k' o : k <> k' -> prop k (delete k' o) = prop k o.
Proof. intros H. unfold prop. now rewrite lookup_delete_other. Qed.

(** Induction on a value through its items and fields. *)
Lemma jsval_induction (P : jsval -> Prop) :
  P JUndefined -> P JNull ->
  (forall b, P (JBool b)) -> (forall z, P (JNum z)) ->
  (forall s, P (JStr s)) ->
  (forall items, Forall P items -> P (JArr items)) ->
  (forall fields, Forall (fun kv => P (snd kv)) fields -> P (JObj fields)) ->
  forall v, P v.
Proof.
  intros HU HN HB HZ HS HA HO.
  fix IH 1.
  intros [ | | b | z | s | items | fields];
    [exact HU | exact HN | apply HB | apply HZ | apply HS | | ].
  - apply HA. induction items as [|x items IHl]; constructor.
    + apply IH.
    + exact IHl.
  - apply HO. induction fields as [|[k x] fields IHl]; constructor.
    + apply IH.
    + exact IHl.
Qed.

Lemma ordinary_JArr items : ordinary (JArr items) = forallb ordinary items.
Proof.
  simpl. induction items as [|x items IH]; simpl; [reflexivity|].
  now rewrite IH.
Qed.

Lemma ordinary_JObj fields : ordinary (JObj fields) = ordinaryFields fields.
Proof.
  simpl. induction fields as [|[k x] fields IH]; simpl; [reflexivity|].
  now rewrite IH.
Qed.

Lemma ordinaryFields_assign k v o :
  reserved k = false -> ordinary v = true ->
  ordinaryFields o = true -> ordinaryFields (assign k v o) = true.
Proof.
  intros Hk Hv. induction o as [|[k' v'] o IH]; simpl.
  - intros _. now rewrite Hk, Hv.
  - rewrite andb_true_iff. intros [H1 H2].
    destruct (jsstring_eqb k k') eqn:E; simpl.
    + apply jsstring_eqb_eq in E; subst k'. now rewrite Hk, Hv, H2.
    + now rewrite H1, IH.
Qed.

Lemma ordinaryFields_delete k o :
  ordinaryFields o = true -> ordinaryFields (delete k o) = true.
Proof.
  induction o as [|[k' v'] o IH]; simpl; [reflexivity|].
  rewrite andb_true_iff. intros [H1 H2].
  destruct (jsstring_eqb k k'); simpl; [now apply IH|].
  now rewrite H1, IH.
Qed.

Lemma ordinary_prop k o :
  ordinaryFields o = true ->
  prop k o = JUndefined \/ ordinary (prop k o) = true.
Proof.
  unfold prop. induction o as [|[k' v'] o IH]; simpl; [now left|].
  rewrite !andb_true_iff. intros [[_ Hv] Ho].
  destruct (jsstring_eqb k k'); [now right | now apply IH].
Qed.

Lemma ordinaryFields_baseMerge source :
  Forall (fun kv =>
            ordinary (snd kv) = true ->
            forall obj,
              obj = JUndefined \/ ordinary obj = true ->
              ordinary (mergeValue (snd kv) obj) = true) source ->
  ordinaryFields source = true ->
  forall object,
    ordinaryFields object = true ->
    ordinaryFields (baseMerge object source) = true.
Proof.
  induction 1 as [|[k v] source Hv Hrest IH]; simpl; [auto|].
  rewrite !andb_true_iff, negb_true_iff. intros [[Hk Ho] Hs] object Hobj.
  apply IH; [assumption|].
  apply ordinaryFields_assign; [assumption| |assumption].
  apply Hv; [assumption|]. now apply ordinary_prop.
Qed.

Lemma mergeValue_ordinary_onto_array src xs :
  ordinary src = true -> ordinary (JArr xs) = true ->
  ordinary (mergeValue src (JArr xs)) = true.
Proof.
  intros Hsrc Hxs.
  rewrite mergeValue_onto_array, ordinary_JArr, forallb_app.
  rewrite ordinary_JArr in Hxs. rewrite Hxs. simpl.
  destruct src; try discriminate; try reflexivity.
  - now rewrite ordinary_JArr in Hsrc.
  - cbn [concatArg forallb]. now rewrite Hsrc.
Qed.

(** Merging ordinary values gives an ordinary value. *)
Lemma mergeValue_ordinary :
  forall src,
    ordinary src = true ->
    forall obj,
      obj = JUndefined \/ ordinary obj = true ->
      ordinary (mergeValue src obj) = true.
Proof.
  induction src as [ | | b | z | s | items IH | fields IH]
    using jsval_induction; intros Hsrc obj Hobj; try discriminate.
  all: destruct obj as [ | | b' | z' | s' | xs | os];
    try exact Hsrc;
    try (destruct Hobj as [Hobj | Hobj]; [discriminate|];
         now apply mergeValue_ordinary_onto_array).
  rewrite mergeValue_objects, ordinary_JObj.
  destruct Hobj as [Hobj | Hobj]; [discriminate|].
  rewrite ordinary_JObj in Hsrc, Hobj.
  now apply ordinaryFields_baseMerge.
Qed.

Lemma baseMerge_ordinary object source :
  ordinaryFields object = true -> ordinaryFields source = true ->
  ordinaryFields (baseMerge object source) = true.
Proof.
  intros Ho Hs. apply ordinaryFields_baseMerge; auto.
  apply Forall_forall. intros kv _. apply mergeValue_ordinary.
Qed.

Lemma mergeWith_objects object source :
  ordinaryFields object = true -> ordinaryFields source = true ->
  mergeWith (JObj object) (JObj source)
    = Some (JObj (baseMerge object source)).
Proof.
  intros Ho Hs. unfold mergeWith. rewrite !ordinary_JObj, Ho, Hs.
  reflexivity.
Qed.

Lemma mergeWith_is_object base content m :
  mergeWith base content = Some m ->
  exists os ss, m = JObj (baseMerge os ss).
Proof.
  unfold mergeWith. destruct base; try discriminate.
  destruct content; try discriminate.
  match goal with |- context [if ?c then _ else _] => destruct c end;
    [|discriminate].
  intros H; injection H as <-. eauto.
Qed.

(** ** Inheritance processing *)

Section Inheritance.

Variable JSON_parse : jsstring -> option jsval.
Variable path_dirname : jsstring -> jsstring.
Variable path_resolve : jsstring -> jsstring -> jsstring.

Local Abbreviation readJsonFile := (readJsonFile JSON_parse).
Local Abbreviation holds := (holds JSON_parse).
Local Abbreviation readJSHintFile :=
  (readJSHintFile JSON_parse path_dirname path_resolve).

Lemma readJsonFile_holds fs file from o :
  holds fs file o -> readJsonFile fs file from = ([], JObj o).
Proof.
  intros (content & Hfile & Hparse). unfold readJsonFile.
  now rewrite Hfile, Hparse.
Qed.

Lemma readJSHintFile_plain fuel fs file from o :
  holds fs file o ->
  truthy (prop EXTENDS o) = false ->
  readJSHintFile (S fuel) fs file from = ([], Returns (JObj o)).
Proof.
  intros Hh Hext. simpl. unfold readJson.
  rewrite (readJsonFile_holds _ _ _ _ Hh). simpl. now rewrite Hext.
Qed.

Lemma readJSHintFile_missing fuel fs file from o e :
  holds fs file o ->
  prop EXTENDS o = JStr e ->
  nonempty e = true ->
  existsSync fs (path_resolve (path_dirname file) e) = false ->
  readJSHintFile (S fuel) fs file from =
    ([cantFind (path_resolve (path_dirname file) e) file],
     Returns (JObj (delete EXTENDS o))).
Proof.
  intros Hh Hext Hne Hex. simpl. unfold readJson.
  rewrite (readJsonFile_holds _ _ _ _ Hh). simpl.
  rewrite Hext. simpl. rewrite Hne. simpl. now rewrite Hex.
Qed.

Lemma readJSHintFile_parent fuel fs file from o e ms parent :
  holds fs file o ->
  prop EXTENDS o = JStr e ->
  nonempty e = true ->
  existsSync fs (path_resolve (path_dirname file) e) = true ->
  readJSHintFile fuel fs (path_resolve (path_dirname file) e) (Some file)
    = (ms, Returns (JObj parent)) ->
  ordinaryFields parent = true -> ordinaryFields o = true ->
  readJSHintFile (S fuel) fs file from =
    (ms, Returns (JObj (delete EXTENDS (baseMerge parent o)))).
Proof.
  intros Hh Hext Hne Hex Hparent Hop Ho. simpl. unfold readJson.
  rewrite (readJsonFile_holds _ _ _ _ Hh). simpl.
  rewrite Hext. simpl. rewrite Hne. simpl. rewrite Hex, Hparent. simpl.
  unfold merged. rewrite (mergeWith_objects _ _ Hop Ho). simpl.
  now rewrite !app_nil_r.
Qed.

(** Whatever inheritance processing returns for a file with a truthy
    [extends] has lost the key. *)
Lemma readJSHintFile_deletes fuel fs file from o ms v :
  holds fs file o ->
  truthy (prop EXTENDS o) = true ->
  readJSHintFile fuel fs file from = (ms, Returns v) ->
  hasMember v EXTENDS = false.
Proof.
  intros Hh Hext. destruct fuel as [|fuel]; simpl; [discriminate|].
  unfold readJson. rewrite (readJsonFile_holds _ _ _ _ Hh). simpl.
  rewrite Hext.
  destruct (resolveBase path_dirname path_resolve file (prop EXTENDS o))
    as [ms1 [baseFile| | |]]; simpl; try discriminate.
  destruct (existsSync fs baseFile).
  - destruct (readJSHintFile fuel fs baseFile (Some file))
      as [ms2 [base| | |]]; simpl; try discriminate.
    unfold merged.
    destruct (mergeWith base (JObj o)) as [m|] eqn:Hm; simpl;
      try discriminate.
    intros H; injection H as _ <-.
    apply mergeWith_is_object in Hm as (os & ss & ->).
    simpl. apply hasKey_delete.
  - simpl. intros H; injection H as _ <-. simpl. apply hasKey_delete.
Qed.

End Inheritance.

(** ** The claims on inheritance *)

Section InheritanceClaims.

Variable JSON_parse : jsstring -> option jsval.
Variable path_dirname : jsstring -> jsstring.
Variable path_resolve : jsstring -> jsstring -> jsstring.

Local Abbreviation holds := (holds JSON_parse).
Local Abbreviation readJSHintFile :=
  (readJSHintFile JSON_parse path_dirname path_resolve).

Lemma holds_exists fs file o : holds fs file o -> existsSync fs file = true.
Proof. intros (content & Hfile & _). unfold existsSync. now rewrite Hfile. Qed.

(** C1 (amended).  For a chain A extends B extends C of files holding
    ordinary objects, inheritance processing returns the merge of the three
    without a report; a field that is an array in all three is C's
    items, then B's, then A's; a scalar field of the child keeps the
    child's value unless the resolved parent has an array there; an
    object field that the child and the resolved parent both have is
    merged key by key, not replaced. *)
Theorem extends_chain_merge fs a b c A B C ea eb from n :
  holds fs a A -> holds fs b B -> holds fs c C ->
  ordinaryFields A = true -> ordinaryFields B = true ->
  ordinaryFields C = true ->
  NoDup (map fst A) -> NoDup (map fst B) ->
  prop EXTENDS A = JStr ea -> nonempty ea = true ->
  path_resolve (path_dirname a) ea = b ->
  prop EXTENDS B = JStr eb -> nonempty eb = true ->
  path_resolve (path_dirname b) eb = c ->
  truthy (prop EXTENDS C) = false ->
  let P := delete EXTENDS (baseMerge C B) in
  let R := delete EXTENDS (baseMerge P A) in
  readJSHintFile (3 + n) fs a from = ([], Returns (JObj R))
  /\ (forall k xa xb xc,
        k <> EXTENDS ->
        lookup k A = Some (JArr xa) ->
        lookup k B = Some (JArr xb) ->
        lookup k C = Some (JArr xc) ->
        lookup k R = Some (JArr (xc ++ xb ++ xa)))
  /\ (forall k v,
        k <> EXTENDS ->
        lookup k A = Some v -> isScalar v = true ->
        isArray (prop k P) = false ->
        lookup k R = Some v)
  /\ (forall k oa op,
        k <> EXTENDS ->
        lookup k A = Some (JObj oa) -> prop k P = JObj op ->
        lookup k R = Some (JObj (baseMerge op oa))).
Proof.
  intros HA HB HC OA OB OC NA NB EA NEA Rb EB NEB Rc EC P R.
  assert (HPk : forall k, k <> EXTENDS ->
            lookup k P = match lookup k B with
                         | Some v => Some (mergeValue v (prop k C))
                         | None => lookup k C
                         end).
  { intros k Hk. unfold P. rewrite lookup_delete_other by assumption.
    now apply lookup_baseMerge. }
  assert (HRk : forall k, k <> EXTENDS ->
            lookup k R = match lookup k A with
                         | Some v => Some (mergeValue v (prop k P))
                         | None => lookup k P
                         end).
  { intros k Hk. unfold R. rewrite lookup_delete_other by assumption.
    now apply lookup_baseMerge. }
  repeat split.
  - change (3 + n)%nat with (S (S (S n))).
    subst b c.
    unfold R, P.
    apply readJSHintFile_parent with (e := ea);
      [assumption | assumption | assumption
      | now apply (holds_exists _ _ B) | | | assumption].
    + apply readJSHintFile_parent with (e := eb);
        [assumption | assumption | assumption
        | now apply (holds_exists _ _ C) | | assumption | assumption].
      now apply readJSHintFile_plain.
    + apply ordinaryFields_delete. now apply baseMerge_ordinary.
  - intros k xa xb xc Hk La Lb Lc.
    rewrite (HRk k Hk), La. unfold prop at 1. rewrite (HPk k Hk), Lb.
    unfold prop. rewrite Lc.
    rewrite !mergeValue_onto_array. simpl. now rewrite app_assoc.
  - intros k v Hk La Hs Hp.
    rewrite (HRk k Hk), La. now rewrite mergeValue_scalar.
  - intros k oa op Hk La Hp.
    rewrite (HRk k Hk), La, Hp. now rewrite mergeValue_objects.
Qed.

(** C2 (amended).  What inheritance processing returns for a file has
    no [extends] key, unless the file's own content carries the key
    with a falsy value. *)
Theorem readJSHintFile_extends_free fuel fs file from ms v :
  readJSHintFile fuel fs file from = (ms, Returns v) ->
  falsyExtends (snd (readJsonFile JSON_parse fs file from)) = false ->
  hasMember v EXTENDS = false.
Proof.
  destruct fuel as [|fuel]; simpl; [discriminate|].
  unfold readJson.
  destruct (readJsonFile JSON_parse fs file from) as [ms0 content]. simpl.
  destruct content as [ | | b | z | s | items | o]; simpl;
    try discriminate;
    try (intros H _; injection H as _ <-; reflexivity).
  destruct (truthy (prop EXTENDS o)) eqn:Hext.
  - intros H _. revert H.
    destruct (resolveBase path_dirname path_resolve file (prop EXTENDS o))
      as [ms1 [baseFile| | |]]; simpl; try discriminate.
    destruct (existsSync fs baseFile).
    + destruct (readJSHintFile fuel fs baseFile (Some file))
        as [ms2 [base| | |]]; simpl; try discriminate.
      unfold merged.
      destruct (mergeWith base (JObj o)) as [m|] eqn:Hm; simpl;
        try discriminate.
      intros H; injection H as _ <-.
      apply mergeWith_is_object in Hm as (os & ss & ->).
      simpl. apply hasKey_delete.
    + simpl. intros H; injection H as _ <-. simpl. apply hasKey_delete.
  - simpl. intros H Hf; injection H as _ <-. simpl.
    now rewrite andb_true_r in Hf.
Qed.

(** C8.  A file holding an object whose [extends] names a path that
    does not exist resolves to its own fields without the key, with the
    one report that the parent is missing; and the key is gone from
    whatever is returned when the parent exists. *)
Theorem extends_missing_parent fs file from o e :
  holds fs file o ->
  prop EXTENDS o = JStr e ->
  nonempty e = true ->
  (existsSync fs (path_resolve (path_dirname file) e) = false ->
   forall fuel,
     readJSHintFile (S fuel) fs file from =
       ([cantFind (path_resolve (path_dirname file) e) file],
        Returns (JObj (delete EXTENDS o)))
     /\ hasKey EXTENDS (delete EXTENDS o) = false
     /\ (forall k, k <> EXTENDS ->
           lookup k (delete EXTENDS o) = lookup k o))
  /\ (forall fuel ms v,
        readJSHintFile fuel fs file from = (ms, Returns v) ->
        hasMember v EXTENDS = false).
Proof.
  intros Hh Hext Hne. split.
  - intros Hmissing fuel. split; [|split].
    + now apply readJSHintFile_missing.
    + apply hasKey_delete.
    + intros k Hk. now apply lookup_delete_other.
  - intros fuel ms v H.
    apply (readJSHintFile_deletes _ _ _ _ _ _ _ _ _ _ Hh) in H; auto.
    rewrite Hext. exact Hne.
Qed.

End InheritanceClaims.

(** ** The claims on OptionsResolver *)

Section ResolverClaims.

Variable JSON_parse : jsstring -> option jsval.
Variable path_join : jsstring -> jsstring -> jsstring.
Variable path_dirname : jsstring -> jsstring.
Variable path_resolve : jsstring -> jsstring -> jsstring.
Variable getUserHome : option jsstring.

Local Abbreviation readJsonFile := (readJsonFile JSON_parse).
Local Abbreviation readOptions :=
  (readOptions JSON_parse path_join path_dirname path_resolve getUserHome).
Local Abbreviation getOptions :=
  (getOptions JSON_parse path_join path_dirname path_resolve getUserHome).

(** [readJsonFile] does not throw: it gives the parsed content and no
    report, or the empty object and the one report that names the file
    and the file that extends it. *)
Lemma readJsonFile_degrades fs file from :
  (exists content v,
      fs file = Some (File content)
      /\ JSON_parse (stripComments content) = Some v
      /\ readJsonFile fs file from = ([], v))
  \/ readJsonFile fs file from =
       ([cantLoad (location file from)], JObj []).
Proof.
  unfold readJsonFile.
  destruct (fs file) as [[content|]|]; auto.
  destruct (JSON_parse (stripComments content)) as [v|] eqn:E; auto.
  left. now exists content, v.
Qed.

(** A truthy cached value is returned as it is, whatever is on disk. *)
Lemma getOptions_cached fuel fs this fsPath :
  truthy (prop fsPath (optionsCache this)) = true ->
  getOptions fuel fs this fsPath
    = (this, ([], Returns (prop fsPath (optionsCache this)))).
Proof. intros H. unfold getOptions. now rewrite H. Qed.

(** After a call that returned a truthy value, the next call returns
    the same value on any file system. *)
Lemma getOptions_twice fuel fs fs' fuel' this fsPath this' ms v :
  getOptions fuel fs this fsPath = (this', (ms, Returns v)) ->
  truthy v = true ->
  getOptions fuel' fs' this' fsPath = (this', ([], Returns v)).
Proof.
  unfold getOptions.
  destruct (truthy (prop fsPath (optionsCache this))) eqn:Hc.
  - intros H Hv. injection H as <- _ <-. now rewrite Hc.
  - destruct (readOptions fuel fs this fsPath) as [ms1 [r| | |]];
      intros H Hv; try (injection H as _ _ H; discriminate).
    injection H as <- _ <-. simpl.
    unfold prop. rewrite lookup_assign_same. now rewrite Hv.
Qed.

(** After [configure] the cache is empty and the next call reads the
    file system. *)
Lemma getOptions_after_configure fuel fs path options this fsPath :
  snd (getOptions fuel fs (configure path options this) fsPath)
    = readOptions fuel fs (configure path options this) fsPath.
Proof.
  unfold getOptions. simpl.
  destruct (readOptions fuel fs (configure path options this) fsPath)
    as [ms [r| | |]]; reflexivity.
Qed.

(** Where a returned configuration comes from: a flat read, the
    [jshintConfig] of a [package.json], the legacy options, or inheritance
    processing of some file. *)
Lemma readOptions_sources fuel fs this fsPath ms v :
  readOptions fuel fs this fsPath = (ms, Returns v) ->
  (exists c, v = snd (readJsonFile fs c None))
  \/ (exists file,
        member (snd (readJsonFile fs file None)) JSHINTCONFIG
          = ([], Returns v))
  \/ v = jshintOptions this
  \/ (exists file ms',
        readJSHintFile JSON_parse path_dirname path_resolve fuel fs file None
          = (ms', Returns v)).
Proof.
  assert (Hhome : forall ms v,
            readHome JSON_parse path_join path_dirname path_resolve
              getUserHome fuel fs (jshintOptions this) = (ms, Returns v) ->
            v = jshintOptions this
            \/ (exists file ms',
                  readJSHintFile JSON_parse path_dirname path_resolve
                    fuel fs file None = (ms', Returns v))).
  { intros ms0 v0. unfold readHome.
    destruct (configured getUserHome) as [home|].
    - destruct (existsSync fs (path_join home JSHINTRC)).
      + intros H. right. eauto.
      + intros H. injection H as _ <-. now left.
    - intros H. injection H as _ <-. now left. }
  assert (Hproject : forall ms v,
            readProject JSON_parse path_join path_dirname path_resolve
              getUserHome fuel fs (jshintOptions this) fsPath
              = (ms, Returns v) ->
            v = jshintOptions this
            \/ (exists file ms',
                  readJSHintFile JSON_parse path_dirname path_resolve
                    fuel fs file None = (ms', Returns v))).
  { intros ms0 v0. unfold readProject, locate.
    destruct (locateFile path_join path_dirname fuel fs fsPath JSHINTRC)
      as [r|]; simpl; [|discriminate].
    destruct (configured r) as [file|].
    - destruct (readJSHintFile JSON_parse path_dirname path_resolve
                  fuel fs file None) as [ms1 o1] eqn:E.
      intros H. injection H as _ ->. right. eauto.
    - destruct (readHome JSON_parse path_join path_dirname path_resolve
                  getUserHome fuel fs (jshintOptions this))
        as [ms1 o1] eqn:E.
      intros H. injection H as _ ->. eauto. }
  unfold readOptions.
  destruct (pinned fs (configPath this)) as [c|].
  { unfold readJson. destruct (readJsonFile fs c None) as [ms0 v0] eqn:E.
    intros H. injection H as _ <-. left. exists c. now rewrite E. }
  destruct (legacyConfig fs (jshintOptions this)) as [c|].
  { unfold readJson. destruct (readJsonFile fs c None) as [ms0 v0] eqn:E.
    intros H. injection H as _ <-. left. exists c. now rewrite E. }
  destruct (nonempty fsPath).
  - unfold locate.
    destruct (locateFile path_join path_dirname fuel fs fsPath PACKAGE_JSON)
      as [r|]; simpl; [|discriminate].
    destruct (configured r) as [file|].
    + unfold readJson.
      destruct (readJsonFile fs file None) as [ms0 content] eqn:E. simpl.
      destruct (member content JSHINTCONFIG) as [ms1 [config| | |]] eqn:Em;
        simpl; try discriminate.
      assert (Hms1 : ms1 = [])
        by (destruct content; simpl in Em; unfold throw, ret in Em;
            congruence).
      subst ms1.
      destruct (truthy config).
      * intros H. injection H as _ <-. right; left. exists file.
        now rewrite E.
      * destruct (readProject JSON_parse path_join path_dirname path_resolve
                    getUserHome fuel fs (jshintOptions this) fsPath)
          as [ms2 o2] eqn:Ep.
        intros H. injection H as _ ->. right; right. eauto.
    + destruct (readProject JSON_parse path_join path_dirname path_resolve
                  getUserHome fuel fs (jshintOptions this) fsPath)
        as [ms2 o2] eqn:Ep.
      intros H. injection H as _ ->. right; right. eauto.
  - intros H. right; right. eauto.
Qed.

(** C4.  On a cache miss, with an explicit config path that exists,
    [getOptions] returns what the flat read of that file gives: its
    parsed content and no report when it parses.  No fuel is needed, so
    no upward search runs, whatever else is on disk. *)
Theorem pinned_config_wins fuel fs this fsPath c :
  truthy (prop fsPath (optionsCache this)) = false ->
  configured (configPath this) = Some c ->
  existsSync fs c = true ->
  snd (getOptions fuel fs this fsPath)
    = (fst (readJsonFile fs c None), Returns (snd (readJsonFile fs c None)))
  /\ (forall content v,
        fs c = Some (File content) ->
        JSON_parse (stripComments content) = Some v ->
        snd (getOptions fuel fs this fsPath) = ([], Returns v)).
Proof.
  intros Hmiss Hc Hex.
  assert (H : snd (getOptions fuel fs this fsPath)
              = (fst (readJsonFile fs c None),
                 Returns (snd (readJsonFile fs c None)))).
  { unfold getOptions. rewrite Hmiss.
    unfold readOptions, pinned. rewrite Hc, Hex.
    unfold readJson. now destruct (readJsonFile fs c None). }
  split; [exact H|].
  intros content v Hfile Hparse. rewrite H.
  unfold readJsonFile. now rewrite Hfile, Hparse.
Qed.

End ResolverClaims.

(** ** The claims on FileMatcher *)

Lemma isPrefix_app (a b : jsstring) : isPrefix a (a ++ b) = true.
Proof.
  unfold isPrefix. rewrite firstn_app, Nat.sub_diag, firstn_all. simpl.
  rewrite app_nil_r. apply jsstring_eqb_refl.
Qed.

Lemma relativeTo_below (root rest : jsstring) :
  nonempty root = true -> relativeTo (root ++ slash :: rest) root = rest.
Proof.
  intros Hne. unfold relativeTo. rewrite Hne, isPrefix_app. simpl.
  rewrite nth_middle, N.eqb_refl, andb_true_r.
  replace (List.length root <? List.length (root ++ slash :: rest))%nat
    with true.
  - change (S (List.length root)) with (1 + List.length root)%nat.
    rewrite <- skipn_skipn.
    rewrite skipn_app, Nat.sub_diag, skipn_all. reflexivity.
  - symmetry. apply Nat.ltb_lt. rewrite length_app. simpl. lia.
Qed.

Lemma pickTrueKeys_spec (exclude : jsobject) (k : jsstring) :
  In k (pickTrueKeys (Some exclude)) <-> In (k, JBool true) exclude.
Proof.
  unfold pickTrueKeys. rewrite in_map_iff. split.
  - intros ([k' v] & Hk & Hin). simpl in Hk. subst k'.
    apply filter_In in Hin as [Hin Ht]. simpl in Ht.
    destruct v as [ | | [|] | | | | ]; try discriminate. exact Hin.
  - intros Hin. exists (k, JBool true). split; [reflexivity|].
    apply filter_In. now split.
Qed.

Section MatcherClaims.

Variable path_join : jsstring -> jsstring -> jsstring.
Variable path_dirname : jsstring -> jsstring.
Variable minimatch : jsstring -> jsstring -> bool.
Variable processIgnoreFile : filesystem -> jsstring -> list jsstring.

Local Abbreviation locateFile := (locateFile path_join path_dirname).
Local Abbreviation excludes :=
  (excludes path_join path_dirname minimatch processIgnoreFile).

Lemma excludes_found fuel fs this fsPath root file :
  nonempty fsPath = true ->
  ownBool HAS_OWN_PROPERTY (excludeCache this) = None ->
  ownBool fsPath (excludeCache this) = None ->
  pinned fs (ignorePath this) = None ->
  locateFile fuel fs fsPath JSHINTIGNORE = Some (Some file) ->
  nonempty file = true ->
  snd (excludes fuel fs this fsPath root)
    = ([], Returns
             (existsb (minimatch (relativeTo fsPath (folderOf file)))
                (processIgnoreFile fs file))).
Proof.
  intros Hne Hown Hmiss Hpin Hloc Hfile.
  unfold excludes. rewrite Hne, Hown, Hmiss.
  unfold shouldBeExcluded, locate. rewrite Hpin, Hloc. simpl.
  now rewrite Hfile.
Qed.

Lemma excludes_default fuel fs this fsPath root :
  nonempty fsPath = true ->
  ownBool HAS_OWN_PROPERTY (excludeCache this) = None ->
  ownBool fsPath (excludeCache this) = None ->
  pinned fs (ignorePath this) = None ->
  locateFile fuel fs fsPath JSHINTIGNORE = Some None ->
  snd (excludes fuel fs this fsPath root)
    = ([], Returns
             match defaultExcludePatterns this with
             | Some ps => existsb (minimatch (relativeTo fsPath root)) ps
             | None => false
             end).
Proof.
  intros Hne Hown Hmiss Hpin Hloc.
  unfold excludes. rewrite Hne, Hown, Hmiss.
  unfold shouldBeExcluded, locate. rewrite Hpin, Hloc. simpl.
  reflexivity.
Qed.

(** The cases of [excludes] on a cache miss with no explicit ignore file
    on disk, in the words of the code: with an ignore file found, the
    path is taken relative to [folderOf] of that file; with none, relative
    to the root and against the default patterns. *)
Theorem excludes_resolution :
  (forall fuel fs this fsPath root,
      nonempty fsPath = true ->
      ownBool HAS_OWN_PROPERTY (excludeCache this) = None ->
      ownBool fsPath (excludeCache this) = None ->
      pinned fs (ignorePath this) = None ->
      (forall file,
          locateFile fuel fs fsPath JSHINTIGNORE = Some (Some file) ->
          nonempty file = true ->
          snd (excludes fuel fs this fsPath root)
            = ([], Returns
                     (existsb (minimatch (relativeTo fsPath (folderOf file)))
                        (processIgnoreFile fs file))))
      /\ (locateFile fuel fs fsPath JSHINTIGNORE = Some None ->
          snd (excludes fuel fs this fsPath root)
            = ([], Returns
                     match defaultExcludePatterns this with
                     | Some ps =>
                         existsb (minimatch (relativeTo fsPath root)) ps
                     | None => false
                     end)))
  /\ (forall path exclude this,
        exists ps,
          defaultExcludePatterns (configureMatcher path (Some exclude) this)
            = Some ps
          /\ forall k, In k ps <-> In (k, JBool true) exclude)
  /\ (forall root rest,
        nonempty root = true ->
        relativeTo (root ++ slash :: rest) root = rest)
  /\ (forall fuel fs path this,
        minimatch (js "build/out.js") (js "build/**") = true ->
        minimatch (js "src/out.js") (js "build/**") = false ->
        pinned fs path = None ->
        locateFile fuel fs (js "/p/build/out.js") JSHINTIGNORE = Some None ->
        locateFile fuel fs (js "/p/src/out.js") JSHINTIGNORE = Some None ->
        let matcher :=
          configureMatcher path (Some [(js "build/**", JBool true)]) this in
        snd (excludes fuel fs matcher (js "/p/build/out.js") (js "/p"))
          = ([], Returns true)
        /\ snd (excludes fuel fs matcher (js "/p/src/out.js") (js "/p"))
          = ([], Returns false)).
Proof.
  split; [|split; [|split]].
  - intros fuel fs this fsPath root Hne Hown Hmiss Hpin. split.
    + intros file Hloc Hfile. now apply excludes_found.
    + intros Hloc. now apply excludes_default.
  - intros path exclude this. exists (pickTrueKeys (Some exclude)).
    split; [reflexivity|]. intros k. apply pickTrueKeys_spec.
  - exact relativeTo_below.
  - intros fuel fs path this Hin Hout Hpin Hb Hs matcher. split.
    + rewrite excludes_default; auto.
      change (relativeTo (js "/p/build/out.js") (js "/p"))
        with (js "build/out.js").
      simpl. now rewrite Hin.
    + rewrite excludes_default; auto.
      change (relativeTo (js "/p/src/out.js") (js "/p"))
        with (js "src/out.js").
      simpl. now rewrite Hout.
Qed.

(** C9.  With an empty path [excludes] returns [true] at once: the
    matcher is unchanged, nothing is reported, and neither the cache
    nor the file system nor the patterns are read. *)
Theorem excludes_empty_path fuel fs this root :
  excludes fuel fs this [] root = (this, ([], Returns true)).
Proof. reflexivity. Qed.

End MatcherClaims.

(** C10.  [clear] on either resolver empties the cache and changes
    nothing else: the config path and the legacy options, the ignore-file
    path and the default patterns stay, and the argument is ignored. *)
Theorem clear_changes_only_the_cache :
  (forall (this : OptionsResolver) (options options' : jsval),
      optionsCache (clear options this) = []
      /\ configPath (clear options this) = configPath this
      /\ jshintOptions (clear options this) = jshintOptions this
      /\ clear options this = clear options' this)
  /\ (forall (this : FileMatcher) (exclude exclude' : option jsobject),
        excludeCache (clearMatcher exclude this) = []
        /\ ignorePath (clearMatcher exclude this) = ignorePath this
        /\ defaultExcludePatterns (clearMatcher exclude this)
           = defaultExcludePatterns this
        /\ clearMatcher exclude this = clearMatcher exclude' this).
Proof. split; intros; repeat split. Qed.

(** ** Comment stripping *)

(** Each matcher splits its input into the match and the rest, and looks
    at nothing beyond the match. *)
Lemma quoted_split q :
  forall n t m rest,
    (List.length t <= n)%nat ->
    quoted q t = Some (m, rest) ->
    t = m ++ rest /\ forall x, quoted q (m ++ x) = Some (m, x).
Proof.
  induction n as [|n IH]; intros t m rest Hlen.
  - destruct t; [discriminate | simpl in Hlen; lia].
  - destruct t as [|c t]; [discriminate|]. simpl in Hlen. simpl.
    destruct (c =? q) eqn:Eq.
    + intros H; injection H as <- <-. split; [reflexivity|].
      intros x. simpl. now rewrite Eq.
    + destruct (c =? backslash) eqn:Eb.
      * destruct t as [|d t]; [discriminate|]. simpl in Hlen.
        destruct (isLineTerminator d) eqn:Elt; [discriminate|].
        destruct (quoted q t) as [[m' rest']|] eqn:Eq'; [|discriminate].
        intros H; injection H as <- <-.
        destruct (IH t m' rest' ltac:(lia) Eq') as [-> Hx].
        split; [reflexivity|]. intros x. simpl.
        now rewrite Eq, Eb, Elt, Hx.
      * destruct (quoted q t) as [[m' rest']|] eqn:Eq'; [|discriminate].
        intros H; injection H as <- <-.
        destruct (IH t m' rest' ltac:(lia) Eq') as [-> Hx].
        split; [reflexivity|]. intros x. simpl.
        now rewrite Eq, Eb, Hx.
Qed.

Lemma blockComment_step c d t :
  blockComment (c :: d :: t) =
    if (c =? star) && (d =? slash) then Some ([c; d], t)
    else if (c =? cr) && (d =? lf) then
      match blockComment t with
      | Some (m, rest) => Some (c :: d :: m, rest)
      | None => None
      end
    else if (c =? lf) || negb (isLineTerminator c) then
      match blockComment (d :: t) with
      | Some (m, rest) => Some (c :: m, rest)
      | None => None
      end
    else None.
Proof. reflexivity. Qed.

Lemma blockComment_split :
  forall n t m rest,
    (List.length t <= n)%nat ->
    blockComment t = Some (m, rest) -> t = m ++ rest.
Proof.
  induction n as [|n IH]; intros t m rest Hlen.
  - destruct t; [discriminate | simpl in Hlen; lia].
  - destruct t as [|c [|d t]]; try discriminate. simpl in Hlen.
    rewrite blockComment_step.
    destruct ((c =? star) && (d =? slash)).
    + intros H; injection H as <- <-. reflexivity.
    + destruct ((c =? cr) && (d =? lf)).
      * destruct (blockComment t) as [[m' rest']|] eqn:E; [|discriminate].
        intros H; injection H as <- <-.
        now rewrite (IH t m' rest' ltac:(lia) E).
      * destruct ((c =? lf) || negb (isLineTerminator c)); [|discriminate].
        destruct (blockComment (d :: t)) as [[m' rest']|] eqn:E;
          [|discriminate].
        intros H; injection H as <- <-.
        now rewrite (IH (d :: t) m' rest' ltac:(simpl; lia) E).
Qed.

Lemma lineComment_split t :
  forall m rest, lineComment t = Some (m, rest) -> t = m ++ rest.
Proof.
  induction t as [|c t IH]; intros m rest; simpl.
  - intros H; injection H as <- <-. reflexivity.
  - destruct (c =? lf).
    + intros H; injection H as <- <-. reflexivity.
    + destruct (c =? cr).
      * destruct t as [|d t]; [discriminate|].
        destruct (d =? lf); [|discriminate].
        intros H; injection H as <- <-. reflexivity.
      * destruct (isLineTerminator c); [discriminate|].
        destruct (lineComment t) as [[m' rest']|] eqn:E; [|discriminate].
        intros H; injection H as <- <-. now rewrite (IH m' rest' eq_refl).
Qed.

Lemma quoted_rest q t m rest :
  quoted q t = Some (m, rest) -> (List.length rest <= List.length t)%nat.
Proof.
  intros H. apply (quoted_split q _ t m rest (le_n _)) in H as [-> _].
  rewrite length_app. lia.
Qed.

Lemma blockComment_rest t m rest :
  blockComment t = Some (m, rest) -> (List.length rest <= List.length t)%nat.
Proof.
  intros H. apply (blockComment_split _ t m rest (le_n _)) in H as ->.
  rewrite length_app. lia.
Qed.

Lemma lineComment_rest t m rest :
  lineComment t = Some (m, rest) -> (List.length rest <= List.length t)%nat.
Proof.
  intros H. apply lineComment_split in H as ->. rewrite length_app. lia.
Qed.

Lemma replaceComments_fuel :
  forall fuel fuel' s,
    (List.length s <= fuel)%nat -> (List.length s <= fuel')%nat ->
    replaceComments fuel s = replaceComments fuel' s.
Proof.
  induction fuel as [|fuel IH]; intros fuel' s H1 H2.
  - destruct s; [now destruct fuel' | simpl in H1; lia].
  - destruct s as [|c t]; [now destruct fuel'|].
    destruct fuel' as [|fuel']; [simpl in H2; lia|].
    simpl in H1, H2. simpl.
    destruct ((c =? dquote) || (c =? squote)).
    + destruct (quoted c t) as [[m rest]|] eqn:E.
      * apply quoted_rest in E.
        now rewrite (IH fuel' rest) by lia.
      * now rewrite (IH fuel' t) by lia.
    + destruct (c =? slash); [|now rewrite (IH fuel' t) by lia].
      destruct t as [|d t']; [reflexivity|]. simpl in H1, H2.
      destruct (d =? star).
      * destruct (blockComment t') as [[m rest]|] eqn:E.
        -- apply blockComment_rest in E. apply IH; lia.
        -- now rewrite (IH fuel' (d :: t')) by (simpl; lia).
      * destruct (d =? slash).
        -- destruct (lineComment t') as [[m rest]|] eqn:E.
           ++ apply lineComment_rest in E.
              now rewrite (IH fuel' rest) by lia.
           ++ now rewrite (IH fuel' (d :: t')) by (simpl; lia).
        -- now rewrite (IH fuel' (d :: t')) by (simpl; lia).
Qed.

Lemma stripComments_fuel fuel s :
  (List.length s <= fuel)%nat -> replaceComments fuel s = stripComments s.
Proof. intros H. now apply replaceComments_fuel. Qed.


Lemma lineReplacement_cases m4 :
  lineReplacement m4 = []
  \/ lineReplacement m4 = [lf] \/ lineReplacement m4 = [cr; lf].
Proof.
  unfold lineReplacement.
  destruct ((2 <? List.length m4)%nat
            && (nth (List.length m4 - 1) m4 0 =? lf)); auto.
  destruct (nth (List.length m4 - 2) m4 0 =? cr); auto.
Qed.




(** ** The properties on the sample runs *)

Ltac run := vm_compute; reflexivity.

Ltac distinct_keys :=
  vm_compute; repeat constructor; simpl; intuition discriminate.

Lemma chain_holds :
  holds Sample.JSON_parse Scenario.chain (js "/p/.jshintrc")
    Scenario.childObject
  /\ holds Sample.JSON_parse Scenario.chain (js "/p/b.json")
       Scenario.parentObject
  /\ holds Sample.JSON_parse Scenario.chain (js "/p/c.json")
       Scenario.grandparentObject.
Proof.
  repeat split.
  - exists Scenario.childText. split; run.
  - exists Scenario.parentText. split; run.
  - exists Scenario.grandparentText. split; run.
Defined.

(** The chain of the sample: the arrays come out grandparent first. *)
Lemma extends_chain_merge_witness :
  Scenario.readJSHintFile 3 Scenario.chain (js "/p/.jshintrc") None
    = ([], Returns
             (JObj [ (js "predef",
                      JArr [JStr (js "c"); JStr (js "b"); JStr (js "a")]);
                     (js "globals",
                      JObj [ (js "z", JBool false); (js "y", JBool true);
                             (js "x", JBool true) ]);
                     (js "curly", JBool true);
                     (js "undef", JBool true) ])).
Proof.
  destruct chain_holds as (HA & HB & HC).
  assert (NA : NoDup (map fst Scenario.childObject)) by distinct_keys.
  assert (NB : NoDup (map fst Scenario.parentObject)) by distinct_keys.
  destruct (extends_chain_merge Sample.JSON_parse Sample.path_dirname
              Sample.path_resolve Scenario.chain
              (js "/p/.jshintrc") (js "/p/b.json") (js "/p/c.json")
              Scenario.childObject Scenario.parentObject
              Scenario.grandparentObject (js "b.json") (js "c.json")
              None 0%nat HA HB HC eq_refl eq_refl eq_refl NA NB
              eq_refl eq_refl eq_refl eq_refl eq_refl eq_refl eq_refl)
    as (H & _).
  exact H.
Defined.

(** C1, as stated, fails on the sample chain: [globals] is an object in
    the child and in its parent, and the result holds the keys of all
    three files, not the child's value. *)
Lemma chain_globals_are_merged :
  Sample.JSON_parse (stripComments Scenario.childText)
    = Some (JObj Scenario.childObject)
  /\ Sample.JSON_parse (stripComments Scenario.parentText)
     = Some (JObj Scenario.parentObject)
  /\ lookup (js "globals") Scenario.childObject
     = Some (JObj [(js "x", JBool true)])
  /\ lookup (js "globals") Scenario.parentObject
     = Some (JObj [(js "y", JBool true)])
  /\ exists R,
      Scenario.readJSHintFile 3 Scenario.chain (js "/p/.jshintrc") None
        = ([], Returns (JObj R))
      /\ lookup (js "globals") R
         = Some (JObj [ (js "z", JBool false); (js "y", JBool true);
                        (js "x", JBool true) ])
      /\ lookup (js "globals") R
         <> lookup (js "globals") Scenario.childObject.
Proof.
  do 4 (split; [run|]).
  eexists. split; [run|]. split; [run|].
  vm_compute. discriminate.
Qed.

(** C2, as stated, fails on a pinned file: the flat read returns the
    file's content with its [extends] key. *)
Lemma pinned_config_keeps_extends :
  snd (Scenario.getOptions 0 Scenario.pinnedDisk Scenario.pinnedResolver
         (js "/p/a.js"))
    = ([], Returns (JObj [ (js "extends", JStr (js "b.json"));
                           (js "undef", JBool true) ]))
  /\ hasMember (JObj [ (js "extends", JStr (js "b.json"));
                       (js "undef", JBool true) ]) EXTENDS = true.
Proof. split; run. Qed.

Lemma readJSHintFile_extends_free_witness :
  hasMember
    (JObj [ (js "predef", JArr [JStr (js "c"); JStr (js "b"); JStr (js "a")]);
            (js "globals",
             JObj [ (js "z", JBool false); (js "y", JBool true);
                    (js "x", JBool true) ]);
            (js "curly", JBool true);
            (js "undef", JBool true) ]) EXTENDS = false.
Proof.
  apply (readJSHintFile_extends_free Sample.JSON_parse Sample.path_dirname
           Sample.path_resolve 3 Scenario.chain (js "/p/.jshintrc") None []).
  - run.
  - run.
Defined.

(** C3 fails on a project file whose content is [null]: the parse
    succeeds, nothing is reported, and reading [extends] throws. *)
Lemma null_project_file_throws :
  Sample.JSON_parse (stripComments (js "null")) = Some JNull
  /\ Scenario.getOptions 4 Scenario.nullProject newOptionsResolver
       (js "/p/src/a.js")
     = (newOptionsResolver, ([], Throws)).
Proof. split; run. Qed.

Lemma pinned_config_wins_witness :
  snd (Scenario.getOptions 0 Scenario.pinnedDisk Scenario.pinnedResolver
         (js "/p/a.js"))
    = ([], Returns (JObj [ (js "extends", JStr (js "b.json"));
                           (js "undef", JBool true) ])).
Proof.
  destruct (pinned_config_wins Sample.JSON_parse Sample.path_join
              Sample.path_dirname Sample.path_resolve Scenario.home
              0 Scenario.pinnedDisk Scenario.pinnedResolver (js "/p/a.js")
              (js "/cfg.json") eq_refl eq_refl eq_refl) as [_ H].
  apply (H (Sample.text "{`extends`: `b.json`, `undef`: true}")); run.
Defined.

(** C5 fails when the first result is falsy: with no configuration
    anywhere the first call returns [null] and stores it; a project file
    appears; the second call reads it. *)
Lemma falsy_result_is_read_again :
  let fsPath := js "/p/src/a.js" in
  let first := Scenario.getOptions 4 Scenario.emptyDisk newOptionsResolver
                 fsPath in
  let second := Scenario.getOptions 4 Scenario.laterDisk (fst first) fsPath in
  snd first = ([], Returns JNull)
  /\ optionsCache (fst first) = [(fsPath, JNull)]
  /\ snd second = ([], Returns (JObj [(js "undef", JBool true)]))
  /\ snd second <> snd first.
Proof.
  repeat split; try run. vm_compute. discriminate.
Qed.

Lemma extends_missing_parent_witness :
  Scenario.readJSHintFile 1 Scenario.orphan (js "/p/.jshintrc") None
    = ([js "Can't find JSHint file /p/gone.json extended from /p/.jshintrc"],
       Returns (JObj [(js "undef", JBool true)])).
Proof.
  assert (Hh : holds Sample.JSON_parse Scenario.orphan (js "/p/.jshintrc")
                 [ (js "extends", JStr (js "gone.json"));
                   (js "undef", JBool true) ]).
  { exists (Sample.text "{`extends`: `gone.json`, `undef`: true}").
    split; run. }
  destruct (extends_missing_parent Sample.JSON_parse Sample.path_dirname
              Sample.path_resolve Scenario.orphan (js "/p/.jshintrc") None
              _ (js "gone.json") Hh eq_refl eq_refl) as [H _].
  destruct (H eq_refl 0%nat) as [H1 _]. exact H1.
Defined.


Lemma excludes_resolution_witness :
  snd (Scenario.excludes 4 Scenario.emptyDisk Scenario.buildMatcher
         (js "/p/build/out.js") (js "/p")) = ([], Returns true)
  /\ snd (Scenario.excludes 4 Scenario.emptyDisk Scenario.buildMatcher
            (js "/p/src/out.js") (js "/p")) = ([], Returns false)
  /\ snd (Scenario.excludes 3 Scenario.ignoreDisk Scenario.buildMatcher
            (js "/p/sub/gen/a.js") (js "/p")) = ([], Returns true)
  /\ Sample.minimatch (js "sub/gen/a.js") (js "gen/*.js") = false.
Proof.
  destruct (excludes_resolution Sample.path_join Sample.path_dirname
              Sample.minimatch Sample.processIgnoreFile)
    as (Hgeneral & _ & _ & Hexample).
  destruct (Hexample 4%nat Scenario.emptyDisk None newFileMatcher
              eq_refl eq_refl eq_refl eq_refl eq_refl) as [Hin Hout].
  destruct (Hgeneral 3%nat Scenario.ignoreDisk Scenario.buildMatcher
              (js "/p/sub/gen/a.js") (js "/p")
              eq_refl eq_refl eq_refl eq_refl) as [Hfound _].
  split; [|split; [|split]].
  - exact Hin.
  - exact Hout.
  - unfold Scenario.excludes.
    rewrite (Hfound (js "/p/sub/.jshintignore") eq_refl eq_refl). run.
  - run.
Defined.


(** * Further properties *)

(** ** Diagnostics *)

Lemma makeDiagnostic_start (problem : JSHintError) :
  posLine (rangeStart (range (makeDiagnostic problem)))
    = (Z.max 1 (errLine problem) - 1)%Z
  /\ posCharacter (rangeStart (range (makeDiagnostic problem)))
     = (Z.max 1 (errCharacter problem) - 1)%Z.
Proof.
  unfold makeDiagnostic. simpl.
  destruct (errLine problem <=? 0)%Z eqn:El;
    destruct (errCharacter problem <=? 0)%Z eqn:Ec; split; lia.
Qed.

(** X1.  Every diagnostic has an empty range at a position that is not
    negative: the 1-based line and character are lowered by one after
    positions of zero or below were raised to one. *)
Theorem makeDiagnostic_range (problem : JSHintError) :
  let d := makeDiagnostic problem in
  nonNegative (rangeStart (range d))
  /\ rangeEnd (range d) = rangeStart (range d)
  /\ posLine (rangeStart (range d)) = (Z.max 1 (errLine problem) - 1)%Z
  /\ posCharacter (rangeStart (range d))
     = (Z.max 1 (errCharacter problem) - 1)%Z.
Proof.
  destruct (makeDiagnostic_start problem) as [Hl Hc].
  unfold nonNegative. cbv zeta. rewrite Hl, Hc.
  repeat split; lia.
Qed.

(** ** Paths *)

Lemma lastIndexOfSlash_bound p i :
  lastIndexOfSlash p = Some i ->
  (i < List.length p)%nat
  /\ nth i p 0 = slash
  /\ lastIndexOfSlash (skipn (S i) p) = None.
Proof.
  revert i. induction p as [|c p IH]; intros i; simpl; [discriminate|].
  destruct (lastIndexOfSlash p) as [j|] eqn:E.
  - intros H; injection H as <-.
    destruct (IH j eq_refl) as (H1 & H2 & H3).
    repeat split; [lia | assumption | assumption].
  - destruct (c =? slash) eqn:Ec; [|discriminate].
    intros H; injection H as <-. apply N.eqb_eq in Ec.
    repeat split; [lia | assumption | assumption].
Qed.

Lemma lastIndexOfSlash_none p :
  lastIndexOfSlash p = None <-> ~ In slash p.
Proof.
  induction p as [|c p IH]; simpl; [tauto|].
  destruct (lastIndexOfSlash p) as [j|] eqn:E.
  - split; [discriminate|]. intros H. exfalso.
    assert (Hin : In slash p).
    { destruct (in_dec N.eq_dec slash p) as [Hi|Hn]; [exact Hi|].
      apply IH in Hn. discriminate. }
    apply H. now right.
  - destruct (c =? slash) eqn:Ec.
    + apply N.eqb_eq in Ec. split; [discriminate|].
      intros H. exfalso. apply H. now left.
    + apply N.eqb_neq in Ec. split; [|reflexivity].
      intros _ [H|H]; [congruence|]. now apply IH in H.
Qed.

Lemma lastIndexOfSlash_app d name :
  ~ In slash name ->
  lastIndexOfSlash (d ++ slash :: name) = Some (List.length d).
Proof.
  intros Hn. induction d as [|c d IH]; simpl.
  - apply lastIndexOfSlash_none in Hn. now rewrite Hn.
  - now rewrite IH.
Qed.

(** X2.  [folderOf] and [lastSegment] cut a path at its last slash: the
    two parts and the slash give the path back, and the last segment has
    no slash; a path without a slash is its own folder and its own last
    segment. *)
Theorem folderOf_lastSegment (p : jsstring) :
  (In slash p ->
   folderOf p ++ slash :: lastSegment p = p
   /\ ~ In slash (lastSegment p))
  /\ (~ In slash p -> folderOf p = p /\ lastSegment p = p).
Proof.
  unfold folderOf, lastSegment. split.
  - intros Hin. destruct (lastIndexOfSlash p) as [i|] eqn:E.
    + destruct (lastIndexOfSlash_bound p i E) as (Hlt & Hnth & Hrest).
      split; [|now apply lastIndexOfSlash_none].
      rewrite <- (firstn_skipn i p) at 3. f_equal.
      rewrite <- Hnth.
      clear E Hnth Hrest Hin. revert i Hlt.
      induction p as [|c p IH]; intros i Hlt; [simpl in Hlt; lia|].
      destruct i as [|i]; [reflexivity|].
      simpl in Hlt. simpl. apply (IH i). lia.
    + apply lastIndexOfSlash_none in E. contradiction.
  - intros Hn. apply lastIndexOfSlash_none in Hn. now rewrite Hn.
Qed.

Lemma folderOf_lastSegment_witness :
  folderOf (js "/p/sub/.jshintignore") ++ slash
    :: lastSegment (js "/p/sub/.jshintignore") = js "/p/sub/.jshintignore"
  /\ lastSegment (js "/p/sub/.jshintignore") = JSHINTIGNORE
  /\ folderOf (js "a.js") = js "a.js".
Proof.
  destruct (folderOf_lastSegment (js "/p/sub/.jshintignore")) as [H _].
  destruct (folderOf_lastSegment (js "a.js")) as [_ H'].
  split; [|split].
  - apply H. vm_compute. tauto.
  - vm_compute. reflexivity.
  - apply H'. vm_compute. intuition discriminate.
Defined.

(** A file named [name] in the folder [d] is cut into exactly [d]
    and [name]. *)
Theorem folderOf_join (d name : jsstring) :
  ~ In slash name ->
  folderOf (d ++ slash :: name) = d
  /\ lastSegment (d ++ slash :: name) = name.
Proof.
  intros Hn. unfold folderOf, lastSegment.
  rewrite (lastIndexOfSlash_app d name Hn). split.
  - rewrite firstn_app, Nat.sub_diag, firstn_all. simpl.
    apply app_nil_r.
  - change (S (List.length d)) with (1 + List.length d)%nat.
    rewrite <- skipn_skipn, skipn_app, Nat.sub_diag, skipn_all.
    reflexivity.
Qed.

Lemma folderOf_join_witness :
  folderOf (js "/p/sub" ++ slash :: JSHINTRC) = js "/p/sub"
  /\ lastSegment (js "/p/sub" ++ slash :: JSHINTRC) = JSHINTRC.
Proof.
  apply (folderOf_join (js "/p/sub") JSHINTRC).
  vm_compute. intuition discriminate.
Defined.

Lemma isPrefix_split a b :
  isPrefix a b = true -> b = a ++ skipn (List.length a) b.
Proof.
  unfold isPrefix. intros H. apply jsstring_eqb_eq in H.
  rewrite H at 1. symmetry. apply firstn_skipn.
Qed.

Lemma skipn_cons_nth (p : jsstring) n :
  (n < List.length p)%nat -> skipn n p = nth n p 0 :: skipn (S n) p.
Proof.
  revert n. induction p as [|c p IH]; intros n Hlt; [simpl in Hlt; lia|].
  destruct n as [|n]; [reflexivity|].
  simpl in Hlt. cbn [skipn nth]. apply IH. lia.
Qed.

(** X3.  [relativeTo] returns a suffix of the path: it strips nothing,
    the folder, or the folder and one slash, and nothing when the folder
    is empty or is not a prefix of the path. *)
Theorem relativeTo_suffix (fsPath folder : jsstring) :
  (fsPath = relativeTo fsPath folder
   \/ fsPath = folder ++ relativeTo fsPath folder
   \/ fsPath = folder ++ slash :: relativeTo fsPath folder)
  /\ (nonempty folder && isPrefix folder fsPath = false ->
      relativeTo fsPath folder = fsPath).
Proof.
  unfold relativeTo.
  destruct (nonempty folder && isPrefix folder fsPath) eqn:E;
    [|split; [now left | reflexivity]].
  split; [|discriminate].
  apply andb_true_iff in E as [_ Hp]. apply isPrefix_split in Hp.
  destruct ((List.length folder <? List.length fsPath)%nat
            && (nth (List.length folder) fsPath 0 =? slash)) eqn:Ec.
  - right; right. apply andb_true_iff in Ec as [Hlt Hc].
    apply Nat.ltb_lt in Hlt. apply N.eqb_eq in Hc.
    rewrite Hp at 1. f_equal.
    rewrite (skipn_cons_nth _ _ Hlt). now rewrite Hc.
  - right; left. exact Hp.
Qed.

(** ** The upward search *)

Section UpwardSearch.

Variable path_join : jsstring -> jsstring -> jsstring.
Variable path_dirname : jsstring -> jsstring.

Local Abbreviation locateFile := (locateFile path_join path_dirname).
Local Abbreviation ancestor := (ancestor path_dirname).

Lemma ancestor_step n directory :
  ancestor n (path_dirname directory) = ancestor (S n) directory.
Proof. unfold ancestor. symmetry. apply Nat.iter_succ_r. Qed.

(** X4.  What [locateFile] finds is the file in the nearest folder that
    has one: it exists, it is [fileName] joined to a folder reached from
    the start by [path.dirname], and every folder before that one lacks
    the file and is not yet the root. *)
Theorem locateFile_nearest fuel fs directory fileName found :
  locateFile fuel fs directory fileName = Some (Some found) ->
  exists n,
    (n < fuel)%nat
    /\ found = path_join (ancestor n directory) fileName
    /\ existsSync fs found = true
    /\ forall m, (m < n)%nat ->
         existsSync fs (path_join (ancestor m directory) fileName) = false
         /\ ancestor (S m) directory <> ancestor m directory.
Proof.
  revert directory. induction fuel as [|fuel IH]; intros directory;
    simpl; [discriminate|].
  destruct (existsSync fs (path_join directory fileName)) eqn:Ex.
  - intros H; injection H as <-. exists 0%nat.
    split; [lia|]. split; [reflexivity|]. split; [assumption|].
    intros m Hm. lia.
  - destruct (jsstring_eqb (path_dirname directory) directory) eqn:Er;
      [discriminate|].
    intros H. destruct (IH _ H) as (n & Hn & Hf & He & Hbefore).
    exists (S n). rewrite <- ancestor_step.
    split; [lia|]. split; [assumption|]. split; [assumption|].
    intros [|m] Hm.
    + split; [exact Ex|]. simpl. intros Heq.
      apply jsstring_eqb_eq in Heq. congruence.
    + rewrite <- !ancestor_step. apply Hbefore. lia.
Qed.

(** X5.  When [locateFile] reports that there is no such file, it has
    walked up to a folder that is its own parent, and no folder on the
    way, that one included, has the file. *)
Theorem locateFile_exhaustive fuel fs directory fileName :
  locateFile fuel fs directory fileName = Some None ->
  exists n,
    (n < fuel)%nat
    /\ path_dirname (ancestor n directory) = ancestor n directory
    /\ forall m, (m <= n)%nat ->
         existsSync fs (path_join (ancestor m directory) fileName) = false.
Proof.
  revert directory. induction fuel as [|fuel IH]; intros directory;
    simpl; [discriminate|].
  destruct (existsSync fs (path_join directory fileName)) eqn:Ex;
    [discriminate|].
  destruct (jsstring_eqb (path_dirname directory) directory) eqn:Er.
  - intros _. exists 0%nat. apply jsstring_eqb_eq in Er.
    split; [lia|]. split; [exact Er|].
    intros m Hm. replace m with 0%nat by lia. exact Ex.
  - intros H. destruct (IH _ H) as (n & Hn & Hroot & Hnone).
    exists (S n). rewrite <- ancestor_step.
    split; [lia|]. split; [assumption|].
    intros [|m] Hm; [exact Ex|].
    rewrite <- ancestor_step. apply Hnone. lia.
Qed.

(** The answer of [locateFile] does not depend on the fuel once
    there is enough of it. *)
Theorem locateFile_fuel fuel fuel' fs directory fileName r :
  locateFile fuel fs directory fileName = Some r ->
  (fuel <= fuel')%nat ->
  locateFile fuel' fs directory fileName = Some r.
Proof.
  revert fuel' directory. induction fuel as [|fuel IH];
    intros fuel' directory; simpl; [discriminate|].
  intros H Hle. destruct fuel' as [|fuel']; [lia|]. simpl.
  destruct (existsSync fs (path_join directory fileName)); [exact H|].
  destruct (jsstring_eqb (path_dirname directory) directory); [exact H|].
  apply IH; [exact H | lia].
Qed.

End UpwardSearch.

Lemma locateFile_nearest_witness :
  exists n,
    (n < 4)%nat
    /\ js "/p/.jshintrc"
       = Sample.path_join
           (ancestor Sample.path_dirname n (js "/p/src/a.js")) JSHINTRC
    /\ existsSync Scenario.laterDisk (js "/p/.jshintrc") = true
    /\ forall m, (m < n)%nat ->
         existsSync Scenario.laterDisk
           (Sample.path_join
              (ancestor Sample.path_dirname m (js "/p/src/a.js")) JSHINTRC)
           = false
         /\ ancestor Sample.path_dirname (S m) (js "/p/src/a.js")
            <> ancestor Sample.path_dirname m (js "/p/src/a.js").
Proof.
  apply (locateFile_nearest Sample.path_join Sample.path_dirname 4
           Scenario.laterDisk (js "/p/src/a.js") JSHINTRC).
  vm_compute. reflexivity.
Defined.

Lemma locateFile_exhaustive_witness :
  exists n,
    (n < 4)%nat
    /\ Sample.path_dirname
         (ancestor Sample.path_dirname n (js "/p/src/a.js"))
       = ancestor Sample.path_dirname n (js "/p/src/a.js")
    /\ forall m, (m <= n)%nat ->
         existsSync Scenario.emptyDisk
           (Sample.path_join
              (ancestor Sample.path_dirname m (js "/p/src/a.js")) JSHINTRC)
           = false.
Proof.
  apply (locateFile_exhaustive Sample.path_join Sample.path_dirname 4
           Scenario.emptyDisk (js "/p/src/a.js") JSHINTRC).
  vm_compute. reflexivity.
Defined.

Lemma locateFile_fuel_witness :
  locateFile Sample.path_join Sample.path_dirname 9 Scenario.laterDisk
    (js "/p/src/a.js") JSHINTRC = Some (Some (js "/p/.jshintrc")).
Proof.
  apply (locateFile_fuel Sample.path_join Sample.path_dirname 3 9
           Scenario.laterDisk (js "/p/src/a.js") JSHINTRC).
  - vm_compute. reflexivity.
  - lia.
Defined.

(** ** More on comment stripping *)

Lemma lineReplacement_length m :
  (List.length (lineReplacement (slash :: slash :: m))
   <= List.length (slash :: slash :: m))%nat.
Proof.
  destruct (lineReplacement_cases (slash :: slash :: m)) as [H | [H | H]];
    rewrite H; simpl; lia.
Qed.

Lemma replaceComments_length fuel :
  forall s, (List.length (replaceComments fuel s) <= List.length s)%nat.
Proof.
  induction fuel as [|fuel IH]; intros [|c t]; simpl; try lia.
  destruct ((c =? dquote) || (c =? squote)).
  - destruct (quoted c t) as [[m rest]|] eqn:E.
    + apply (quoted_split c _ t m rest (le_n _)) in E as [-> _].
      simpl. rewrite !length_app. specialize (IH rest). lia.
    + simpl. specialize (IH t). lia.
  - destruct (c =? slash) eqn:Es; [|simpl; specialize (IH t); lia].
    apply N.eqb_eq in Es. subst c.
    destruct t as [|d t']; [simpl; lia|].
    destruct (d =? star).
    + destruct (blockComment t') as [[m rest]|] eqn:E.
      * apply blockComment_rest in E. specialize (IH rest). simpl. lia.
      * specialize (IH (d :: t')). simpl in *. lia.
    + destruct (d =? slash) eqn:Ed.
      * apply N.eqb_eq in Ed. subst d.
        destruct (lineComment t') as [[m rest]|] eqn:E.
        -- apply lineComment_split in E as ->.
           rewrite length_app. specialize (IH rest).
           pose proof (lineReplacement_length m) as Hl.
           simpl in Hl |- *. rewrite length_app. lia.
        -- specialize (IH (slash :: t')). simpl in *. lia.
      * specialize (IH (d :: t')). simpl in *. lia.
Qed.

(** X6.  Stripping never makes a text longer. *)
Theorem stripComments_shorter (content : jsstring) :
  (List.length (stripComments content) <= List.length content)%nat.
Proof. apply replaceComments_length. Qed.

Lemma replaceComments_no_slash fuel :
  forall s,
    ~ In slash s -> (List.length s <= fuel)%nat ->
    replaceComments fuel s = s.
Proof.
  induction fuel as [|fuel IH]; intros [|c t] Hn Hlen;
    try reflexivity; simpl in Hlen; try lia.
  simpl.
  assert (Hc : (c =? slash) = false)
    by (apply N.eqb_neq; intros ->; apply Hn; now left).
  assert (Ht : ~ In slash t) by (intros H; apply Hn; now right).
  destruct ((c =? dquote) || (c =? squote)).
  - destruct (quoted c t) as [[m rest]|] eqn:E.
    + pose proof (quoted_rest _ _ _ _ E) as Hrest.
      apply (quoted_split c _ t m rest (le_n _)) in E as [-> _].
      rewrite IH; [reflexivity | | lia].
      intros H. apply Ht. apply in_or_app. now right.
    + rewrite IH; [reflexivity | assumption | lia].
  - rewrite Hc. rewrite IH; [reflexivity | assumption | lia].
Qed.

(** X7.  A text without a slash has no comment and is returned as it
    is, whatever its quotes. *)
Theorem stripComments_no_slash (content : jsstring) :
  ~ In slash content -> stripComments content = content.
Proof. intros H. now apply replaceComments_no_slash. Qed.

Lemma stripComments_no_slash_witness :
  stripComments (Sample.text "{`a`: 'it`s', `b`: [1, 2]} ` '")
    = Sample.text "{`a`: 'it`s', `b`: [1, 2]} ` '".
Proof.
  apply stripComments_no_slash. vm_compute. intuition discriminate.
Defined.

Lemma lineComment_plain body :
  Forall plain body ->
  lineComment body = Some (body, [])
  /\ (forall rest, lineComment (body ++ lf :: rest) = Some (body ++ [lf], rest))
  /\ (forall rest,
        lineComment (body ++ cr :: lf :: rest)
          = Some (body ++ [cr; lf], rest)).
Proof.
  induction 1 as [|c body Hc Hbody (IH1 & IH2 & IH3)];
    [repeat split|].
  unfold plain in Hc.
  assert (Hlf : (c =? lf) = false)
    by (unfold isLineTerminator in Hc;
        destruct (c =? lf); [discriminate | reflexivity]).
  assert (Hcr : (c =? cr) = false)
    by (unfold isLineTerminator in Hc; destruct (c =? lf);
        destruct (c =? cr); try discriminate; reflexivity).
  repeat split; intros; simpl; rewrite Hlf, Hcr, Hc.
  - now rewrite IH1.
  - now rewrite IH2.
  - now rewrite IH3.
Qed.

Lemma nth_last_one (l : jsstring) a :
  nth (List.length (l ++ [a]) - 1) (l ++ [a]) 0 = a.
Proof.
  rewrite length_app. simpl.
  replace (List.length l + 1 - 1)%nat with (List.length l) by lia.
  apply nth_middle.
Qed.

Lemma nth_last_two (l : jsstring) a b :
  nth (List.length (l ++ [a; b]) - 2) (l ++ [a; b]) 0 = a.
Proof.
  rewrite length_app. simpl.
  replace (List.length l + 2 - 2)%nat with (List.length l) by lia.
  apply nth_middle.
Qed.

Lemma lineReplacement_endings body :
  Forall plain body ->
  lineReplacement (slash :: slash :: body) = []
  /\ lineReplacement (slash :: slash :: body ++ [lf]) = [lf]
  /\ lineReplacement (slash :: slash :: body ++ [cr; lf]) = [cr; lf].
Proof.
  intros Hbody.
  assert (Hall : Forall plain (slash :: slash :: body))
    by (repeat constructor; assumption).
  destruct (exists_last (l := slash :: slash :: body)) as (l & x & Hl);
    [discriminate|].
  assert (Hx : plain x).
  { rewrite Forall_forall in Hall. apply Hall. rewrite Hl.
    apply in_or_app. right. now left. }
  assert (Hxlf : (x =? lf) = false)
    by (unfold plain, isLineTerminator in Hx;
        destruct (x =? lf); [discriminate | reflexivity]).
  assert (Hxcr : (x =? cr) = false)
    by (unfold plain, isLineTerminator in Hx; destruct (x =? lf);
        destruct (x =? cr); try discriminate; reflexivity).
  split; [|split].
  - unfold lineReplacement. rewrite Hl, nth_last_one, Hxlf.
    now rewrite andb_false_r.
  - change (slash :: slash :: body ++ [lf])
      with ((slash :: slash :: body) ++ [lf]).
    unfold lineReplacement. rewrite nth_last_one, N.eqb_refl.
    replace (2 <? List.length ((slash :: slash :: body) ++ [lf]))%nat
      with true
      by (symmetry; apply Nat.ltb_lt; rewrite length_app; simpl; lia).
    simpl andb. cbv iota.
    rewrite Hl, <- app_assoc. simpl app. now rewrite nth_last_two, Hxcr.
  - change (slash :: slash :: body ++ [cr; lf])
      with ((slash :: slash :: body) ++ [cr; lf]).
    unfold lineReplacement.
    rewrite nth_last_two, N.eqb_refl.
    replace ((slash :: slash :: body) ++ [cr; lf])
      with (((slash :: slash :: body) ++ [cr]) ++ [lf])
      by (now rewrite <- app_assoc).
    rewrite nth_last_one, N.eqb_refl.
    replace (2 <? List.length (((slash :: slash :: body) ++ [cr]) ++ [lf]))%nat
      with true
      by (symmetry; apply Nat.ltb_lt; rewrite !length_app; simpl; lia).
    reflexivity.
Qed.

Lemma stripComments_line t m rest :
  lineComment t = Some (m, rest) ->
  stripComments (slash :: slash :: t)
    = lineReplacement (slash :: slash :: m) ++ stripComments rest.
Proof.
  intros H. pose proof (lineComment_rest _ _ _ H) as Hlen.
  unfold stripComments at 1.
  change (List.length (slash :: slash :: t))
    with (S (S (List.length t))).
  set (fuel := S (List.length t)).
  cbn [replaceComments]. simpl N.eqb. simpl orb. cbv iota.
  rewrite H. f_equal. apply stripComments_fuel. subst fuel. lia.
Qed.

Lemma stripComments_block t m rest :
  blockComment t = Some (m, rest) ->
  stripComments (slash :: star :: t) = stripComments rest.
Proof.
  intros H. pose proof (blockComment_rest _ _ _ H) as Hlen.
  unfold stripComments at 1.
  change (List.length (slash :: star :: t))
    with (S (S (List.length t))).
  set (fuel := S (List.length t)).
  cbn [replaceComments]. simpl N.eqb. simpl orb. cbv iota.
  rewrite H. apply stripComments_fuel. subst fuel. lia.
Qed.

(** X8.  A line comment goes up to the end of its line and leaves the
    line terminator it ends with: carriage return and line feed, a line
    feed, or nothing at the end of the text. *)
Theorem stripComments_line_comment (body rest : jsstring) :
  Forall plain body ->
  stripComments (slash :: slash :: body ++ cr :: lf :: rest)
    = cr :: lf :: stripComments rest
  /\ stripComments (slash :: slash :: body ++ lf :: rest)
     = lf :: stripComments rest
  /\ stripComments (slash :: slash :: body) = [].
Proof.
  intros Hbody.
  destruct (lineComment_plain body Hbody) as (Hend & Hlf & Hcrlf).
  destruct (lineReplacement_endings body Hbody) as (Rend & Rlf & Rcrlf).
  split; [|split].
  - rewrite (stripComments_line _ _ _ (Hcrlf rest)). now rewrite Rcrlf.
  - rewrite (stripComments_line _ _ _ (Hlf rest)). now rewrite Rlf.
  - rewrite (stripComments_line _ _ _ Hend). now rewrite Rend.
Qed.

Lemma stripComments_line_comment_witness :
  stripComments (js "// eslint, not jshint" ++ cr :: lf :: js "{}")
    = cr :: lf :: js "{}".
Proof.
  destruct (stripComments_line_comment (js " eslint, not jshint") (js "{}"))
    as [H _].
  - unfold plain. repeat (apply Forall_cons; [reflexivity|]).
    apply Forall_nil.
  - exact H.
Defined.

Lemma blockComment_plain body rest :
  Forall inBlock body ->
  blockComment (body ++ star :: slash :: rest)
    = Some (body ++ [star; slash], rest).
Proof.
  induction 1 as [|c body [Hstar Hc] Hbody IH]; [reflexivity|].
  assert (E1 : (c =? star) = false) by now apply N.eqb_neq.
  assert (E2 : (c =? cr) = false).
  { apply N.eqb_neq. intros ->. destruct Hc as [Hc|Hc]; discriminate. }
  assert (E3 : (c =? lf) || negb (isLineTerminator c) = true).
  { destruct Hc as [-> | ->]; [reflexivity | apply orb_true_r]. }
  destruct body as [|d body].
  - simpl app in *. rewrite blockComment_step, E1, E2, E3. simpl.
    reflexivity.
  - change ((c :: d :: body) ++ star :: slash :: rest)
      with (c :: d :: (body ++ star :: slash :: rest)).
    rewrite blockComment_step, E1, E2, E3. simpl andb. cbv iota.
    change (d :: body ++ star :: slash :: rest)
      with ((d :: body) ++ star :: slash :: rest).
    now rewrite IH.
Qed.

(** X9.  A block comment, over as many lines as it has, is removed
    whole and leaves nothing. *)
Theorem stripComments_block_comment (body rest : jsstring) :
  Forall inBlock body ->
  stripComments (slash :: star :: body ++ star :: slash :: rest)
    = stripComments rest.
Proof.
  intros Hbody.
  apply (stripComments_block _ _ _ (blockComment_plain body rest Hbody)).
Qed.

Lemma stripComments_block_comment_witness :
  stripComments (js "/* one" ++ lf :: js " two // three " ++ js "*/{}")
    = js "{}".
Proof.
  change (js "/* one" ++ lf :: js " two // three " ++ js "*/{}")
    with (slash :: star :: (js " one" ++ lf :: js " two // three ")
            ++ star :: slash :: js "{}").
  rewrite stripComments_block_comment.
  - vm_compute. reflexivity.
  - unfold inBlock.
    repeat (apply Forall_cons;
            [split;
             [discriminate
             | first [left; reflexivity | right; reflexivity]] |]).
    apply Forall_nil.
Defined.

(** ** More on the merge and on inheritance *)

Lemma hasKey_assign k k' v o :
  hasKey k (assign k' v o) = jsstring_eqb k k' || hasKey k o.
Proof.
  unfold hasKey. destruct (jsstring_eqb k k') eqn:E.
  - apply jsstring_eqb_eq in E; subst k'. now rewrite lookup_assign_same.
  - rewrite lookup_assign_other; [reflexivity|].
    intros ->. rewrite jsstring_eqb_refl in E. discriminate.
Qed.

(** The keys that the model function [baseMerge] leaves. *)
Lemma baseMerge_keys (k : jsstring) (source object : jsobject) :
  hasKey k (baseMerge object source) = hasKey k object || hasKey k source.
Proof.
  revert object. induction source as [|[k1 v1] source IH]; intros object.
  - simpl. now rewrite orb_false_r.
  - simpl. rewrite IH, hasKey_assign.
    assert (Hs : hasKey k ((k1, v1) :: source)
                 = jsstring_eqb k k1 || hasKey k source).
    { unfold hasKey. simpl. now destruct (jsstring_eqb k k1). }
    rewrite Hs.
    destruct (jsstring_eqb k k1), (hasKey k object), (hasKey k source);
      reflexivity.
Qed.

Lemma mergeValue_onto_undefined v : mergeValue v JUndefined = v.
Proof. destruct v; reflexivity. Qed.

Lemma assign_fresh k v (o : jsobject) :
  ~ In k (map fst o) -> assign k v o = o ++ [(k, v)].
Proof.
  induction o as [|[k' v'] o IH]; simpl; [reflexivity|].
  intros H. rewrite jsstring_eqb_neq by (intros ->; apply H; now left).
  rewrite IH; [reflexivity|]. intros Hin; apply H; now right.
Qed.

Lemma baseMerge_fresh source :
  NoDup (map fst source) ->
  forall object,
    (forall k, In k (map fst source) -> ~ In k (map fst object)) ->
    baseMerge object source = object ++ source.
Proof.
  induction source as [|[k v] source IH]; intros Hnd object Hfresh.
  - simpl. now rewrite app_nil_r.
  - inversion Hnd as [|? ? Hnotin Hnd']; subst.
    simpl. unfold prop.
    rewrite lookup_None_notin by (apply Hfresh; now left).
    rewrite mergeValue_onto_undefined.
    rewrite assign_fresh by (apply Hfresh; now left).
    rewrite IH; [now rewrite <- app_assoc | assumption |].
    intros k' Hin. rewrite map_app, in_app_iff. simpl.
    intros [H | [H | []]].
    + apply (Hfresh k'); [now right | exact H].
    + simpl in H. subst k'. contradiction.
Qed.

Section MoreInheritance.

Variable JSON_parse : jsstring -> option jsval.
Variable path_dirname : jsstring -> jsstring.
Variable path_resolve : jsstring -> jsstring -> jsstring.

Local Abbreviation holds := (holds JSON_parse).
Local Abbreviation readJsonFile := (readJsonFile JSON_parse).
Local Abbreviation readJSHintFile :=
  (readJSHintFile JSON_parse path_dirname path_resolve).

(** X11.  A file whose [extends] is there but falsy (an empty string,
    [false], [null], zero) is returned as it was parsed: no parent is
    looked for, nothing is reported and the key stays. *)
Theorem extends_falsy_is_kept fuel fs file from o :
  holds fs file o ->
  hasKey EXTENDS o = true ->
  truthy (prop EXTENDS o) = false ->
  readJSHintFile (S fuel) fs file from = ([], Returns (JObj o))
  /\ hasMember (JObj o) EXTENDS = true.
Proof.
  intros Hh Hk Hf. split; [|exact Hk].
  now apply readJSHintFile_plain.
Qed.

(** X12.  A truthy [extends] that is not a string (a list of parents,
    [true], a number) makes inheritance processing throw, with nothing
    reported. *)
Theorem extends_not_a_string_throws fuel fs file from o :
  holds fs file o ->
  truthy (prop EXTENDS o) = true ->
  (forall e, prop EXTENDS o <> JStr e) ->
  readJSHintFile (S fuel) fs file from = ([], Throws).
Proof.
  intros Hh Ht Hs. simpl. unfold readJson.
  rewrite (readJsonFile_holds _ _ _ _ _ Hh). simpl. rewrite Ht.
  destruct (prop EXTENDS o) as [ | | b | z | e | items | fields];
    try reflexivity.
  now destruct (Hs e).
Qed.

(** X13.  A file that extends itself is never resolved: whatever the
    fuel, the recursion of [readJSHintFile] has not come to an end. *)
Theorem extends_itself_never_returns fs file o e :
  holds fs file o ->
  prop EXTENDS o = JStr e ->
  nonempty e = true ->
  path_resolve (path_dirname file) e = file ->
  forall fuel from, readJSHintFile fuel fs file from = ([], OutOfFuel).
Proof.
  intros Hh Hext Hne Hself.
  assert (Hex : existsSync fs file = true).
  { destruct Hh as (content & Hfile & _). unfold existsSync.
    now rewrite Hfile. }
  induction fuel as [|fuel IH]; intros from; [reflexivity|].
  simpl. unfold readJson.
  rewrite (readJsonFile_holds _ _ _ _ _ Hh). simpl.
  rewrite Hext. simpl. rewrite Hne. simpl.
  rewrite Hself, Hex, (IH (Some file)). reflexivity.
Qed.

(** X14.  A parent that exists but cannot be read or parsed costs one
    report, which names the parent and the file that extends it, and the
    child is resolved to its own fields without [extends]. *)
Theorem extends_malformed_parent fuel fs file from o e :
  holds fs file o ->
  prop EXTENDS o = JStr e ->
  nonempty e = true ->
  NoDup (map fst o) -> ordinaryFields o = true ->
  let baseFile := path_resolve (path_dirname file) e in
  existsSync fs baseFile = true ->
  (forall content,
      fs baseFile = Some (File content) ->
      JSON_parse (stripComments content) = None) ->
  readJSHintFile (S (S fuel)) fs file from
    = ([cantLoad (location baseFile (Some file))],
       Returns (JObj (delete EXTENDS o))).
Proof.
  intros Hh Hext Hne Hnd Hord baseFile Hex Hbad.
  assert (Hread : readJsonFile fs baseFile (Some file)
                  = ([cantLoad (location baseFile (Some file))], JObj [])).
  { unfold readJsonFile.
    destruct (fs baseFile) as [[content|]|] eqn:Efile; try reflexivity.
    now rewrite (Hbad content eq_refl). }
  assert (Hparent : readJSHintFile (S fuel) fs baseFile (Some file)
                    = ([cantLoad (location baseFile (Some file))],
                       Returns (JObj []))).
  { simpl. unfold readJson. rewrite Hread. reflexivity. }
  rewrite (readJSHintFile_parent JSON_parse path_dirname path_resolve
             (S fuel) fs file from o e _ [] Hh Hext Hne Hex Hparent
             eq_refl Hord).
  rewrite (baseMerge_fresh o Hnd []); [reflexivity|].
  intros k _ [].
Qed.

End MoreInheritance.

Lemma baseMerge_keys_witness :
  hasKey (js "curly")
    (baseMerge Scenario.grandparentObject Scenario.parentObject) = true
  /\ hasKey (js "undef")
       (baseMerge Scenario.grandparentObject Scenario.parentObject) = true
  /\ hasKey (js "maxlen")
       (baseMerge Scenario.grandparentObject Scenario.parentObject) = false.
Proof.
  rewrite !baseMerge_keys. repeat split; vm_compute; reflexivity.
Defined.

Lemma extends_falsy_is_kept_witness :
  Scenario.readJSHintFile 1 Tour.emptyExtendsDisk (js "/p/.jshintrc") None
    = ([], Returns (JObj [ (js "extends", JStr []);
                           (js "undef", JBool true) ])).
Proof.
  apply (extends_falsy_is_kept Sample.JSON_parse Sample.path_dirname
           Sample.path_resolve 0 Tour.emptyExtendsDisk (js "/p/.jshintrc")
           None).
  - exists (Sample.text "{`extends`: ``, `undef`: true}"). split; run.
  - run.
  - run.
Defined.

Lemma extends_not_a_string_throws_witness :
  Scenario.readJSHintFile 1 Tour.listExtendsDisk (js "/p/.jshintrc") None
    = ([], Throws).
Proof.
  apply (extends_not_a_string_throws Sample.JSON_parse Sample.path_dirname
           Sample.path_resolve 0 Tour.listExtendsDisk (js "/p/.jshintrc")
           None [ (js "extends", JArr [JStr (js "b.json")]);
                  (js "undef", JBool true) ]).
  - exists (Sample.text "{`extends`: [`b.json`], `undef`: true}").
    split; run.
  - run.
  - intros e. vm_compute. discriminate.
Defined.

Lemma extends_itself_never_returns_witness :
  Scenario.readJSHintFile 50 Tour.selfDisk (js "/p/.jshintrc") None
    = ([], OutOfFuel).
Proof.
  apply (extends_itself_never_returns Sample.JSON_parse Sample.path_dirname
           Sample.path_resolve Tour.selfDisk (js "/p/.jshintrc")
           [ (js "extends", JStr (js ".jshintrc")); (js "undef", JBool true) ]
           (js ".jshintrc")).
  - exists (Sample.text "{`extends`: `.jshintrc`, `undef`: true}").
    split; run.
  - run.
  - run.
  - run.
Defined.

Lemma extends_malformed_parent_witness :
  Scenario.readJSHintFile 2 Tour.brokenParentDisk (js "/p/.jshintrc") None
    = ([js "Can't load JSHint configuration from file /p/b.json extended from /p/.jshintrc. Please check the file for syntax errors."],
       Returns (JObj [(js "undef", JBool true)])).
Proof.
  apply (extends_malformed_parent Sample.JSON_parse Sample.path_dirname
           Sample.path_resolve 0 Tour.brokenParentDisk (js "/p/.jshintrc")
           None [ (js "extends", JStr (js "b.json"));
                  (js "undef", JBool true) ] (js "b.json")).
  - exists (Sample.text "{`extends`: `b.json`, `undef`: true}").
    split; run.
  - run.
  - run.
  - distinct_keys.
  - run.
  - run.
  - intros content H. vm_compute in H. injection H as <-. run.
Defined.

(** ** More on OptionsResolver *)

Section MoreResolver.

Variable JSON_parse : jsstring -> option jsval.
Variable path_join : jsstring -> jsstring -> jsstring.
Variable path_dirname : jsstring -> jsstring.
Variable path_resolve : jsstring -> jsstring -> jsstring.
Variable getUserHome : option jsstring.

Local Abbreviation holds := (holds JSON_parse).
Local Abbreviation readJsonFile := (readJsonFile JSON_parse).
Local Abbreviation locateFile := (locateFile path_join path_dirname).
Local Abbreviation readJSHintFile :=
  (readJSHintFile JSON_parse path_dirname path_resolve).
Local Abbreviation readOptions :=
  (readOptions JSON_parse path_join path_dirname path_resolve getUserHome).
Local Abbreviation getOptions :=
  (getOptions JSON_parse path_join path_dirname path_resolve getUserHome).
Local Abbreviation noHomeFile := (noHomeFile path_join getUserHome).

(** X15.  With no explicit config file on disk, a [config] path in the
    legacy options that exists is read flat, like an explicit one. *)
Theorem legacy_config_is_read_flat fuel fs this fsPath o c :
  pinned fs (configPath this) = None ->
  jshintOptions this = JObj o ->
  prop CONFIG o = JStr c ->
  nonempty c = true ->
  existsSync fs c = true ->
  readOptions fuel fs this fsPath
    = (fst (readJsonFile fs c None), Returns (snd (readJsonFile fs c None))).
Proof.
  intros Hpin Ho Hc Hne Hex. unfold readOptions.
  rewrite Hpin, Ho. unfold legacyConfig. simpl.
  rewrite Hc, Hne, Hex. simpl. unfold readJson.
  now destruct (readJsonFile fs c None).
Qed.

(** X16.  With neither an explicit nor a legacy config file, a truthy
    [jshintConfig] in the nearest [package.json] is returned as it is: it
    goes through no inheritance processing and no [.jshintrc] is read. *)
Theorem package_config_wins fuel fs this fsPath file package :
  pinned fs (configPath this) = None ->
  legacyConfig fs (jshintOptions this) = None ->
  nonempty fsPath = true ->
  locateFile fuel fs fsPath PACKAGE_JSON = Some (Some file) ->
  nonempty file = true ->
  holds fs file package ->
  truthy (prop JSHINTCONFIG package) = true ->
  readOptions fuel fs this fsPath
    = ([], Returns (prop JSHINTCONFIG package)).
Proof.
  intros Hpin Hleg Hne Hloc Hfile Hh Ht. unfold readOptions.
  rewrite Hpin, Hleg, Hne. unfold locate. rewrite Hloc. simpl.
  unfold configured. rewrite Hfile. unfold readJson.
  rewrite (readJsonFile_holds _ _ _ _ _ Hh). simpl. now rewrite Ht.
Qed.

(** X17.  A [package.json] that cannot be parsed costs one report that
    names it, and resolution goes on to the nearest [.jshintrc]. *)
Theorem package_malformed_falls_through
    fuel fs this fsPath file content rc :
  pinned fs (configPath this) = None ->
  legacyConfig fs (jshintOptions this) = None ->
  nonempty fsPath = true ->
  locateFile fuel fs fsPath PACKAGE_JSON = Some (Some file) ->
  nonempty file = true ->
  fs file = Some (File content) ->
  JSON_parse (stripComments content) = None ->
  locateFile fuel fs fsPath JSHINTRC = Some (Some rc) ->
  nonempty rc = true ->
  readOptions fuel fs this fsPath
    = (cantLoad file :: fst (readJSHintFile fuel fs rc None),
       snd (readJSHintFile fuel fs rc None)).
Proof.
  intros Hpin Hleg Hne Hloc Hfile Hcontent Hbad Hrc Hrcne.
  unfold readOptions.
  rewrite Hpin, Hleg, Hne. unfold locate. rewrite Hloc. simpl.
  unfold configured. rewrite Hfile. unfold readJson, readJsonFile.
  rewrite Hcontent, Hbad. simpl.
  unfold readProject, locate. rewrite Hrc. simpl. rewrite Hrcne.
  now destruct (readJSHintFile fuel fs rc None) as [ms r].
Qed.

Lemma readHome_none fuel fs options :
  noHomeFile fs ->
  readHome JSON_parse path_join path_dirname path_resolve getUserHome
    fuel fs options = ([], Returns options).
Proof.
  intros Hhome. unfold readHome.
  destruct (configured getUserHome) as [home|] eqn:E; [|reflexivity].
  now rewrite (Hhome home E).
Qed.

(** X18.  When there is no config file at all (none explicit or legacy,
    no [package.json] and no [.jshintrc] up to the root, none in the home
    folder), the legacy options are returned as they are and nothing is
    reported; so does an empty path with no home file. *)
Theorem no_config_gives_legacy_options fuel fs this fsPath :
  pinned fs (configPath this) = None ->
  legacyConfig fs (jshintOptions this) = None ->
  noHomeFile fs ->
  (locateFile fuel fs fsPath PACKAGE_JSON = Some None ->
   locateFile fuel fs fsPath JSHINTRC = Some None ->
   readOptions fuel fs this fsPath = ([], Returns (jshintOptions this)))
  /\ readOptions fuel fs this [] = ([], Returns (jshintOptions this)).
Proof.
  intros Hpin Hleg Hhome. split.
  - intros Hpkg Hrc. unfold readOptions. rewrite Hpin, Hleg.
    destruct (nonempty fsPath); [|now apply readHome_none].
    unfold locate. rewrite Hpkg. simpl.
    unfold readProject, locate. rewrite Hrc. simpl.
    now rewrite readHome_none.
  - unfold readOptions. rewrite Hpin, Hleg. simpl.
    now apply readHome_none.
Qed.

(** X19.  When the upward search finds neither a [package.json] nor a
    [.jshintrc], the [.jshintrc] of the home folder is used, and it goes
    through inheritance processing. *)
Theorem home_config_is_the_fallback fuel fs this fsPath home :
  pinned fs (configPath this) = None ->
  legacyConfig fs (jshintOptions this) = None ->
  locateFile fuel fs fsPath PACKAGE_JSON = Some None ->
  locateFile fuel fs fsPath JSHINTRC = Some None ->
  configured getUserHome = Some home ->
  existsSync fs (path_join home JSHINTRC) = true ->
  readOptions fuel fs this fsPath
    = readJSHintFile fuel fs (path_join home JSHINTRC) None.
Proof.
  intros Hpin Hleg Hpkg Hrc Hhome Hex.
  assert (Hread : readHome JSON_parse path_join path_dirname path_resolve
                    getUserHome fuel fs (jshintOptions this)
                  = readJSHintFile fuel fs (path_join home JSHINTRC) None).
  { unfold readHome. now rewrite Hhome, Hex. }
  unfold readOptions. rewrite Hpin, Hleg.
  destruct (nonempty fsPath); [|exact Hread].
  unfold locate. rewrite Hpkg. simpl.
  unfold readProject, locate. rewrite Hrc. simpl.
  rewrite Hread.
  now destruct (readJSHintFile fuel fs (path_join home JSHINTRC) None).
Qed.

(** X20.  A call of [getOptions] for one path leaves the cached values
    of all other paths, the config path and the legacy options as they
    were. *)
Theorem getOptions_frame fuel fs this fsPath other :
  other <> fsPath ->
  let this' := fst (getOptions fuel fs this fsPath) in
  prop other (optionsCache this') = prop other (optionsCache this)
  /\ configPath this' = configPath this
  /\ jshintOptions this' = jshintOptions this.
Proof.
  intros Hne. unfold getOptions.
  destruct (truthy (prop fsPath (optionsCache this))); [repeat split|].
  destruct (readOptions fuel fs this fsPath) as [ms [r| | |]];
    simpl; repeat split.
  unfold prop. now rewrite lookup_assign_other.
Qed.

(** After [clear], the next [getOptions] resolves the path anew
    on the file system as it is then, with the same config path and
    legacy options. *)
Theorem getOptions_after_clear fuel fs options this fsPath :
  snd (getOptions fuel fs (clear options this) fsPath)
    = readOptions fuel fs this fsPath.
Proof.
  unfold getOptions. simpl.
  change (readOptions fuel fs (clear options this) fsPath)
    with (readOptions fuel fs this fsPath).
  destruct (readOptions fuel fs this fsPath) as [ms [r| | |]]; reflexivity.
Qed.

End MoreResolver.

Lemma legacy_config_is_read_flat_witness :
  Tour.readOptions 0 Tour.legacyDisk Tour.legacyResolver (js "/p/a.js")
    = ([], Returns (JObj [ (js "extends", JStr (js "b.json"));
                           (js "eqeqeq", JBool true) ])).
Proof.
  unfold Tour.readOptions.
  rewrite (legacy_config_is_read_flat Sample.JSON_parse Sample.path_join
             Sample.path_dirname Sample.path_resolve Scenario.home 0
             Tour.legacyDisk Tour.legacyResolver (js "/p/a.js")
             [(js "config", JStr (js "/old.json"))] (js "/old.json")
             eq_refl eq_refl eq_refl eq_refl eq_refl).
  run.
Defined.

Lemma package_config_wins_witness :
  Tour.readOptions 3 Tour.packageDisk newOptionsResolver (js "/p/src/a.js")
    = ([], Returns (JObj [ (js "extends", JStr (js "x"));
                           (js "curly", JBool true) ])).
Proof.
  apply (package_config_wins Sample.JSON_parse Sample.path_join
           Sample.path_dirname Sample.path_resolve Scenario.home 3
           Tour.packageDisk newOptionsResolver (js "/p/src/a.js")
           (js "/p/package.json")
           [ (js "name", JStr (js "p"));
             (js "jshintConfig",
              JObj [ (js "extends", JStr (js "x"));
                     (js "curly", JBool true) ]) ]); try run.
  exists (Sample.text
            "{`name`: `p`, `jshintConfig`: {`extends`: `x`, `curly`: true}}").
  split; run.
Defined.

Lemma package_malformed_falls_through_witness :
  Tour.readOptions 3 Tour.brokenPackageDisk newOptionsResolver
    (js "/p/src/a.js")
    = ([js "Can't load JSHint configuration from file /p/package.json. Please check the file for syntax errors."],
       Returns (JObj [(js "undef", JBool true)])).
Proof.
  unfold Tour.readOptions.
  rewrite (package_malformed_falls_through Sample.JSON_parse
             Sample.path_join Sample.path_dirname Sample.path_resolve
             Scenario.home 3 Tour.brokenPackageDisk newOptionsResolver
             (js "/p/src/a.js") (js "/p/package.json")
             (Sample.text "{`name`: ") (js "/p/.jshintrc")
             eq_refl eq_refl eq_refl eq_refl eq_refl eq_refl eq_refl
             eq_refl eq_refl).
  run.
Defined.

Lemma no_config_gives_legacy_options_witness :
  Tour.readOptions 4 Scenario.emptyDisk
    (configure None (JObj [(js "undef", JBool true)]) newOptionsResolver)
    (js "/p/src/a.js")
    = ([], Returns (JObj [(js "undef", JBool true)])).
Proof.
  destruct (no_config_gives_legacy_options Sample.JSON_parse
              Sample.path_join Sample.path_dirname Sample.path_resolve
              Scenario.home 4 Scenario.emptyDisk
              (configure None (JObj [(js "undef", JBool true)])
                 newOptionsResolver)
              (js "/p/src/a.js") eq_refl eq_refl) as [H _].
  - intros home Hhome. injection Hhome as <-. run.
  - apply H; run.
Defined.

Lemma home_config_is_the_fallback_witness :
  Tour.readOptions 4 Tour.homeDisk newOptionsResolver (js "/p/src/a.js")
    = ([], Returns (JObj [(js "undef", JBool true)])).
Proof.
  unfold Tour.readOptions.
  rewrite (home_config_is_the_fallback Sample.JSON_parse Sample.path_join
             Sample.path_dirname Sample.path_resolve Scenario.home 4
             Tour.homeDisk newOptionsResolver (js "/p/src/a.js")
             (js "/home/u") eq_refl eq_refl eq_refl eq_refl eq_refl
             eq_refl).
  run.
Defined.

(** X21.  Once [getOptions] has returned a truthy configuration for a
    path, it returns the same one for that path until the cache is reset,
    whatever the file system then holds, and reports nothing. *)
Theorem getOptions_cache_hit
    (JSON_parse : jsstring -> option jsval)
    (path_join : jsstring -> jsstring -> jsstring)
    (path_dirname : jsstring -> jsstring)
    (path_resolve : jsstring -> jsstring -> jsstring)
    (getUserHome : option jsstring)
    fuel fs this fsPath this' ms v :
  getOptions JSON_parse path_join path_dirname path_resolve getUserHome
    fuel fs this fsPath = (this', (ms, Returns v)) ->
  truthy v = true ->
  forall fuel' fs',
    getOptions JSON_parse path_join path_dirname path_resolve getUserHome
      fuel' fs' this' fsPath = (this', ([], Returns v)).
Proof.
  intros H Hv fuel' fs'.
  exact (getOptions_twice JSON_parse path_join path_dirname path_resolve
           getUserHome fuel fs fs' fuel' this fsPath this' ms v H Hv).
Qed.

Lemma getOptions_cache_hit_witness :
  let first := Scenario.getOptions 4 Scenario.laterDisk newOptionsResolver
                 (js "/p/src/a.js") in
  Scenario.getOptions 0 Scenario.emptyDisk (fst first) (js "/p/src/a.js")
    = (fst first, ([], Returns (JObj [(js "undef", JBool true)]))).
Proof.
  apply (getOptions_cache_hit Sample.JSON_parse Sample.path_join
           Sample.path_dirname Sample.path_resolve Scenario.home
           4 Scenario.laterDisk newOptionsResolver
           (js "/p/src/a.js") _ []).
  - run.
  - run.
Defined.

Lemma getOptions_frame_witness :
  let this' :=
    fst (Scenario.getOptions 4 Scenario.laterDisk
           {| configPath := None; jshintOptions := JNull;
              optionsCache := [(js "/q/b.js", JObj [])] |}
           (js "/p/src/a.js")) in
  prop (js "/q/b.js") (optionsCache this') = JObj [].
Proof.
  apply (getOptions_frame Sample.JSON_parse Sample.path_join
           Sample.path_dirname Sample.path_resolve Scenario.home
           4 Scenario.laterDisk
           {| configPath := None; jshintOptions := JNull;
              optionsCache := [(js "/q/b.js", JObj [])] |}
           (js "/p/src/a.js") (js "/q/b.js")).
  vm_compute. discriminate.
Defined.

(** ** More on FileMatcher *)

Lemma ownBool_filter k p (c : list (jsstring * bool)) :
  k <> p ->
  ownBool k (filter (fun kv => negb (jsstring_eqb p (fst kv))) c)
    = ownBool k c.
Proof.
  intros Hne. induction c as [|[k' b'] c IH]; simpl; [reflexivity|].
  destruct (jsstring_eqb p k') eqn:E; simpl.
  - apply jsstring_eqb_eq in E; subst k'.
    now rewrite (jsstring_eqb_neq _ _ Hne).
  - now rewrite IH.
Qed.

Section MoreMatcher.

Variable path_join : jsstring -> jsstring -> jsstring.
Variable path_dirname : jsstring -> jsstring.
Variable minimatch : jsstring -> jsstring -> bool.
Variable processIgnoreFile : filesystem -> jsstring -> list jsstring.

Local Abbreviation excludes :=
  (excludes path_join path_dirname minimatch processIgnoreFile).

(** The call that follows an answer of [excludes], on the matcher that
    the first call returned. *)
Lemma excludes_twice
    fuel fs this fsPath root this' ms b fuel' fs' root' :
  excludes fuel fs this fsPath root = (this', (ms, Returns b)) ->
  nonempty fsPath = true ->
  fsPath <> PROTO -> fsPath <> HAS_OWN_PROPERTY ->
  excludes fuel' fs' this' fsPath root' = (this', ([], Returns b)).
Proof.
  unfold excludes. intros H Hne Hproto Hhas. rewrite Hne in *.
  destruct (ownBool HAS_OWN_PROPERTY (excludeCache this)) as [x|] eqn:Eown;
    [discriminate|].
  destruct (ownBool fsPath (excludeCache this)) as [cached|] eqn:Ehit.
  - injection H as <- _ <-. now rewrite Eown, Ehit.
  - destruct (shouldBeExcluded path_join path_dirname minimatch
                processIgnoreFile fuel fs this fsPath root)
      as [ms0 [b0| | |]]; try discriminate.
    injection H as <- _ <-. cbn [excludeCache]. unfold remember.
    rewrite (jsstring_eqb_neq _ _ Hproto). cbn [ownBool].
    rewrite (jsstring_eqb_neq HAS_OWN_PROPERTY fsPath)
      by (intros Heq; apply Hhas; now symmetry).
    rewrite ownBool_filter by (intros Heq; apply Hhas; now symmetry).
    now rewrite Eown, jsstring_eqb_refl.
Qed.

(** X23.  An explicit ignore file that exists decides alone: its
    patterns are matched against the path relative to the root, and no
    upward search for a [.jshintignore] runs. *)
Theorem explicit_ignore_file_wins fuel fs this fsPath root c :
  nonempty fsPath = true ->
  ownBool HAS_OWN_PROPERTY (excludeCache this) = None ->
  ownBool fsPath (excludeCache this) = None ->
  configured (ignorePath this) = Some c ->
  existsSync fs c = true ->
  snd (excludes fuel fs this fsPath root)
    = ([], Returns (existsb (minimatch (relativeTo fsPath root))
                      (processIgnoreFile fs c))).
Proof.
  intros Hne Hown Hmiss Hc Hex. unfold excludes.
  rewrite Hne, Hown, Hmiss. unfold shouldBeExcluded, pinned.
  now rewrite Hc, Hex.
Qed.

(** X24.  A file path that is exactly [hasOwnProperty] poisons the
    cache: once [excludes] has answered for it, every later call with a
    non-empty path throws, until the cache is reset. *)
Theorem excludes_hasOwnProperty_poison fuel fs this root this' ms b :
  excludes fuel fs this HAS_OWN_PROPERTY root = (this', (ms, Returns b)) ->
  forall fuel' fs' fsPath root',
    nonempty fsPath = true ->
    excludes fuel' fs' this' fsPath root' = (this', ([], Throws)).
Proof.
  unfold excludes. simpl nonempty. cbv iota. intros H.
  destruct (ownBool HAS_OWN_PROPERTY (excludeCache this)) as [x|] eqn:Eown;
    [discriminate|].
  destruct (shouldBeExcluded path_join path_dirname minimatch
              processIgnoreFile fuel fs this HAS_OWN_PROPERTY root)
    as [ms0 [b0| | |]]; try discriminate.
  injection H as <- _ <-.
  intros fuel' fs' fsPath root' Hne. rewrite Hne. reflexivity.
Qed.

End MoreMatcher.

Lemma excludes_twice_witness :
  let first := Scenario.excludes 4 Scenario.emptyDisk Scenario.buildMatcher
                 (js "/p/build/out.js") (js "/p") in
  Scenario.excludes 0 Scenario.ignoreDisk (fst first)
    (js "/p/build/out.js") (js "/elsewhere")
    = (fst first, ([], Returns true)).
Proof.
  apply (excludes_twice Sample.path_join Sample.path_dirname
           Sample.minimatch Sample.processIgnoreFile
           4 Scenario.emptyDisk Scenario.buildMatcher
           (js "/p/build/out.js") (js "/p") _ []).
  - run.
  - run.
  - vm_compute. discriminate.
  - vm_compute. discriminate.
Defined.

Lemma explicit_ignore_file_wins_witness :
  snd (Scenario.excludes 0 Tour.pinnedIgnoreDisk Tour.pinnedMatcher
         (js "/p/src/a.js") (js "/p")) = ([], Returns true)
  /\ snd (Scenario.excludes 0 Tour.pinnedIgnoreDisk Tour.pinnedMatcher
            (js "/p/build/a.js") (js "/p")) = ([], Returns false).
Proof.
  unfold Scenario.excludes. split.
  - rewrite (explicit_ignore_file_wins Sample.path_join Sample.path_dirname
               Sample.minimatch Sample.processIgnoreFile 0
               Tour.pinnedIgnoreDisk Tour.pinnedMatcher (js "/p/src/a.js")
               (js "/p") (js "/ignore.txt")
               eq_refl eq_refl eq_refl eq_refl eq_refl).
    run.
  - rewrite (explicit_ignore_file_wins Sample.path_join Sample.path_dirname
               Sample.minimatch Sample.processIgnoreFile 0
               Tour.pinnedIgnoreDisk Tour.pinnedMatcher (js "/p/build/a.js")
               (js "/p") (js "/ignore.txt")
               eq_refl eq_refl eq_refl eq_refl eq_refl).
    run.
Defined.

Lemma excludes_hasOwnProperty_poison_witness :
  let first := Scenario.excludes 2 Scenario.emptyDisk Scenario.buildMatcher
                 HAS_OWN_PROPERTY (js "/p") in
  snd first = ([], Returns false)
  /\ Scenario.excludes 4 Scenario.emptyDisk (fst first)
       (js "/p/src/a.js") (js "/p") = (fst first, ([], Throws)).
Proof.
  split; [run|].
  apply (excludes_hasOwnProperty_poison Sample.path_join Sample.path_dirname
           Sample.minimatch Sample.processIgnoreFile
           2 Scenario.emptyDisk Scenario.buildMatcher (js "/p") _ [] false).
  - run.
  - run.
Defined.

(** ** The linter *)

Lemma clear_clear options options' this :
  clear options (clear options' this) = clear options' this.
Proof. reflexivity. Qed.

Lemma watchedFilesChanged_spec changes :
  forall this flag,
    let rc :=
      existsb (fun uri => jsstring_eqb (lastSegment uri) JSHINTRC) changes in
    let ignore :=
      existsb (fun uri => jsstring_eqb (lastSegment uri) JSHINTIGNORE)
        changes in
    watchedFilesChanged changes this flag
    = ({| options :=
            if rc then clear JUndefined (options this) else options this;
          fileMatcher :=
            if ignore then clearMatcher None (fileMatcher this)
            else fileMatcher this;
          workspaceRoot := workspaceRoot this |},
       flag || rc || ignore).
Proof.
  induction changes as [|uri changes IH]; intros this flag; simpl.
  - destruct this; simpl. now rewrite !orb_false_r.
  - destruct (jsstring_eqb (lastSegment uri) JSHINTRC) eqn:Erc.
    + apply jsstring_eqb_eq in Erc.
      assert (Eig : jsstring_eqb (lastSegment uri) JSHINTIGNORE = false)
        by (rewrite Erc; reflexivity).
      rewrite IH, Eig. simpl.
      destruct (existsb _ changes), (existsb _ changes);
        simpl; now rewrite ?orb_true_r.
    + destruct (jsstring_eqb (lastSegment uri) JSHINTIGNORE) eqn:Eig.
      * rewrite IH. simpl.
        destruct (existsb _ changes), (existsb _ changes);
          simpl; now rewrite ?orb_true_r.
      * rewrite IH. reflexivity.
Qed.

(** X25.  The watched-files handler empties the options cache exactly
    when the last segment of a changed uri is [.jshintrc] and the exclude
    cache exactly when one is [.jshintignore]; it asks for a new
    validation exactly when it emptied one of them, and it never touches
    the configured paths, options, patterns or root. *)
Theorem onDidChangeWatchedFiles_spec (changes : list jsstring)
    (this : Linter) :
  let rc :=
    existsb (fun uri => jsstring_eqb (lastSegment uri) JSHINTRC) changes in
  let ignore :=
    existsb (fun uri => jsstring_eqb (lastSegment uri) JSHINTIGNORE)
      changes in
  onDidChangeWatchedFiles changes this
  = ({| options :=
          if rc then clear JUndefined (options this) else options this;
        fileMatcher :=
          if ignore then clearMatcher None (fileMatcher this)
          else fileMatcher this;
        workspaceRoot := workspaceRoot this |},
     rc || ignore).
Proof.
  unfold onDidChangeWatchedFiles. now rewrite watchedFilesChanged_spec.
Qed.

(** X26.  [null] entries of the engine's error list are skipped, and
    every other entry gives one diagnostic, in the same order; a falsy
    error list gives none. *)
Theorem diagnosticsOf_spec :
  (forall problems,
      diagnosticsOf (Some (map Some problems))
        = map makeDiagnostic problems)
  /\ (forall before after,
        diagnosticsOf (Some (before ++ None :: after))
          = diagnosticsOf (Some (before ++ after)))
  /\ diagnosticsOf None = [].
Proof.
  split; [|split; [|reflexivity]].
  - induction problems as [|p ps IH]; simpl in *; [reflexivity|].
    now rewrite IH.
  - intros before after. simpl. now rewrite !flat_map_app.
Qed.

Lemma diagnosticsOf_wellformed errors :
  Forall (fun d =>
            nonNegative (rangeStart (range d))
            /\ rangeEnd (range d) = rangeStart (range d)
            /\ source d = js "jshint")
    (diagnosticsOf errors).
Proof.
  destruct errors as [es|]; simpl; [|constructor].
  induction es as [|[p|] es IH]; simpl; [constructor | | exact IH].
  constructor; [|exact IH].
  destruct (makeDiagnostic_start p) as [Hl Hc].
  unfold nonNegative. rewrite Hl, Hc.
  repeat split; try lia; reflexivity.
Qed.

Section MoreLinter.

Variable JSON_parse : jsstring -> option jsval.
Variable path_join : jsstring -> jsstring -> jsstring.
Variable path_dirname : jsstring -> jsstring.
Variable path_resolve : jsstring -> jsstring -> jsstring.
Variable getUserHome : option jsstring.
Variable minimatch : jsstring -> jsstring -> bool.
Variable processIgnoreFile : filesystem -> jsstring -> list jsstring.
Variable uriToFilePath : jsstring -> option jsstring.

Local Abbreviation getOptions :=
  (getOptions JSON_parse path_join path_dirname path_resolve getUserHome).
Local Abbreviation excludes :=
  (excludes path_join path_dirname minimatch processIgnoreFile).
Local Abbreviation lintContent :=
  (lintContent JSON_parse path_join path_dirname path_resolve getUserHome).
Local Abbreviation validate :=
  (validate JSON_parse path_join path_dirname path_resolve getUserHome
     minimatch processIgnoreFile uriToFilePath).
Local Abbreviation documentPath := (documentPath uriToFilePath).

(** X27.  A document whose uri gives no file path, in a workspace
    without a root, is not linted: an empty list of diagnostics is sent,
    nothing is reported and the linter is left as it was. *)
Theorem validate_unresolvable (JSHINT : engine) fuel fs this uri text :
  configured (uriToFilePath uri) = None ->
  workspaceRoot this = [] ->
  validate JSHINT fuel fs this uri text = (this, ([], Returns [])).
Proof.
  intros Huri Hroot. unfold validate, documentPath.
  rewrite Huri, Hroot. unfold excludes. simpl.
  destruct this as [o m r]. simpl in Hroot. now subst r.
Qed.

(** X28.  An excluded document is not linted: the diagnostics sent are
    empty, the options resolver is not asked, and the lint engine has no
    part in the outcome. *)
Theorem validate_excluded (JSHINT : engine) fuel fs this uri text ms :
  snd (excludes fuel fs (fileMatcher this) (documentPath this uri)
         (workspaceRoot this)) = (ms, Returns true) ->
  snd (validate JSHINT fuel fs this uri text) = (ms, Returns [])
  /\ options (fst (validate JSHINT fuel fs this uri text)) = options this
  /\ forall JSHINT' : engine,
       validate JSHINT' fuel fs this uri text
       = validate JSHINT fuel fs this uri text.
Proof.
  intros H. unfold validate.
  destruct (excludes fuel fs (fileMatcher this) (documentPath this uri)
              (workspaceRoot this)) as [m [ms0 r]].
  simpl in H. injection H as -> ->. repeat split.
Qed.

(** X29.  Every diagnostic that [validate] sends has an empty range at
    a position that is not negative and names [jshint] as its source. *)
Theorem validate_diagnostics (JSHINT : engine) fuel fs this uri text ms ds :
  snd (validate JSHINT fuel fs this uri text) = (ms, Returns ds) ->
  Forall (fun d =>
            nonNegative (rangeStart (range d))
            /\ rangeEnd (range d) = rangeStart (range d)
            /\ source d = js "jshint") ds.
Proof.
  unfold validate.
  destruct (excludes fuel fs (fileMatcher this) (documentPath this uri)
              (workspaceRoot this)) as [m [ms0 [excluded| | |]]];
    simpl; try discriminate.
  destruct excluded.
  - simpl. intros H; injection H as _ <-. constructor.
  - destruct (lintContent JSHINT fuel fs (options this) text
                (documentPath this uri)) as [res [ms1 [errors| | |]]];
      simpl; try discriminate.
    intros H; injection H as _ <-. apply diagnosticsOf_wellformed.
Qed.

(** X30.  What the lint engine is given: the resolved options, or an
    empty object when they are falsy; and as globals the [globals] of
    the options when truthy, or an empty object. *)
Theorem lintContent_arguments (JSHINT : engine)
    fuel fs this content fsPath ms result :
  snd (getOptions fuel fs this fsPath) = (ms, Returns result) ->
  (truthy result = false ->
   snd (lintContent JSHINT fuel fs this content fsPath)
     = (ms, Returns (JSHINT content (JObj []) (JObj []))))
  /\ (forall o,
        result = JObj o ->
        snd (lintContent JSHINT fuel fs this content fsPath)
          = (ms, Returns
                   (JSHINT content result
                      (if truthy (prop GLOBALS o) then prop GLOBALS o
                       else JObj [])))).
Proof.
  intros H. unfold lintContent.
  destruct (getOptions fuel fs this fsPath) as [this' [ms0 r]].
  simpl in H. injection H as -> ->. split.
  - intros Hf. simpl. unfold orEmpty. rewrite Hf. reflexivity.
  - intros o ->. reflexivity.
Qed.

End MoreLinter.

Lemma validate_unresolvable_witness :
  Tour.validate 0 Scenario.laterDisk
    {| options := newOptionsResolver; fileMatcher := Scenario.buildMatcher;
       workspaceRoot := [] |}
    (js "untitled:Untitled-1") (js "var x;")
    = ({| options := newOptionsResolver;
          fileMatcher := Scenario.buildMatcher; workspaceRoot := [] |},
       ([], Returns [])).
Proof.
  apply (validate_unresolvable Sample.JSON_parse Sample.path_join
           Sample.path_dirname Sample.path_resolve Scenario.home
           Sample.minimatch Sample.processIgnoreFile Tour.uriToFilePath
           Tour.JSHINT).
  - run.
  - reflexivity.
Defined.

Lemma validate_excluded_witness :
  snd (Tour.validate 4 Scenario.laterDisk Tour.linter
         (js "file:///p/build/out.js") (js "var x;")) = ([], Returns [])
  /\ options (fst (Tour.validate 4 Scenario.laterDisk Tour.linter
                     (js "file:///p/build/out.js") (js "var x;")))
     = newOptionsResolver.
Proof.
  destruct (validate_excluded Sample.JSON_parse Sample.path_join
              Sample.path_dirname Sample.path_resolve Scenario.home
              Sample.minimatch Sample.processIgnoreFile Tour.uriToFilePath
              Tour.JSHINT 4 Scenario.laterDisk Tour.linter
              (js "file:///p/build/out.js") (js "var x;") [])
    as (H1 & H2 & _).
  - run.
  - split; [exact H1 | exact H2].
Defined.

Lemma validate_diagnostics_witness :
  snd (Tour.validate 4 Scenario.laterDisk Tour.linter
         (js "file:///p/src/a.js") (js "var x;"))
    = ([], Returns [makeDiagnostic Tour.unused; makeDiagnostic Tour.fatal])
  /\ Forall (fun d =>
               nonNegative (rangeStart (range d))
               /\ rangeEnd (range d) = rangeStart (range d)
               /\ source d = js "jshint")
       [makeDiagnostic Tour.unused; makeDiagnostic Tour.fatal].
Proof.
  split; [run|].
  apply (validate_diagnostics Sample.JSON_parse Sample.path_join
           Sample.path_dirname Sample.path_resolve Scenario.home
           Sample.minimatch Sample.processIgnoreFile Tour.uriToFilePath
           Tour.JSHINT 4 Scenario.laterDisk Tour.linter
           (js "file:///p/src/a.js") (js "var x;") []).
  run.
Defined.

Lemma lintContent_arguments_witness :
  snd (Tour.lintContent 4 Scenario.emptyDisk newOptionsResolver
         (js "var x;") (js "/p/src/a.js"))
    = ([], Returns (Tour.JSHINT (js "var x;") (JObj []) (JObj []))).
Proof.
  destruct (lintContent_arguments Sample.JSON_parse Sample.path_join
              Sample.path_dirname Sample.path_resolve Scenario.home
              Tour.JSHINT 4 Scenario.emptyDisk newOptionsResolver
              (js "var x;") (js "/p/src/a.js") [] JNull) as [H _].
  - run.
  - apply H. reflexivity.
Defined.

Lemma relativeTo_suffix_witness :
  relativeTo (js "/q/src/a.js") (js "/p") = js "/q/src/a.js"
  /\ relativeTo (js "/p/src/a.js") (js "/p") = js "src/a.js".
Proof.
  destruct (relativeTo_suffix (js "/q/src/a.js") (js "/p")) as [_ H].
  split; [apply H; run | run].
Defined.

(** ** The ignore file and its folder *)


Section MatcherInFolder.

Variable path_join : jsstring -> jsstring -> jsstring.
Variable path_dirname : jsstring -> jsstring.
Variable minimatch : jsstring -> jsstring -> bool.
Variable processIgnoreFile : filesystem -> jsstring -> list jsstring.

Local Abbreviation locateFile := (locateFile path_join path_dirname).
Local Abbreviation excludes :=
  (excludes path_join path_dirname minimatch processIgnoreFile).


(** X22.  The exclude cache keeps an answer: after [excludes] has
    answered for a path, the cache remembers the answer; a call for any
    path other than [hasOwnProperty] leaves it remembered, whatever
    the file system and the root are; and while it is remembered,
    [excludes] gives that answer for the path and reports nothing. *)
Theorem excludes_answer_is_kept :
  (forall fuel fs this fsPath root this' ms b,
      excludes fuel fs this fsPath root = (this', (ms, Returns b)) ->
      nonempty fsPath = true ->
      fsPath <> PROTO -> fsPath <> HAS_OWN_PROPERTY ->
      remembers this' fsPath b)
  /\ (forall fuel fs this fsPath b other root,
        remembers this fsPath b ->
        other <> HAS_OWN_PROPERTY ->
        remembers (fst (excludes fuel fs this other root)) fsPath b)
  /\ (forall fuel fs this fsPath b root,
        remembers this fsPath b ->
        nonempty fsPath = true ->
        excludes fuel fs this fsPath root = (this, ([], Returns b))).
Proof.
  split; [|split].
  - unfold excludes, remembers.
    intros fuel fs this fsPath root this' ms b H Hne Hproto Hhas.
    rewrite Hne in H.
    destruct (ownBool HAS_OWN_PROPERTY (excludeCache this)) as [x|] eqn:Eown;
      [discriminate|].
    destruct (ownBool fsPath (excludeCache this)) as [cached|] eqn:Ehit.
    + injection H as <- _ <-. now split.
    + destruct (shouldBeExcluded path_join path_dirname minimatch
                  processIgnoreFile fuel fs this fsPath root)
        as [ms0 [b0| | |]]; try discriminate.
      injection H as <- _ <-. cbn [excludeCache]. unfold remember.
      rewrite (jsstring_eqb_neq _ _ Hproto). cbn [ownBool].
      rewrite (jsstring_eqb_neq HAS_OWN_PROPERTY fsPath)
        by (intros Heq; apply Hhas; now symmetry).
      rewrite ownBool_filter by (intros Heq; apply Hhas; now symmetry).
      now rewrite Eown, jsstring_eqb_refl.
  - unfold excludes, remembers.
    intros fuel fs this fsPath b other root [Hown Hp] Hother.
    destruct (nonempty other); [|now split].
    rewrite Hown.
    destruct (ownBool other (excludeCache this)) as [cached|] eqn:Ehit;
      [now split|].
    destruct (shouldBeExcluded path_join path_dirname minimatch
                processIgnoreFile fuel fs this other root)
      as [ms0 [b0| | |]]; try (now split).
    cbn [fst excludeCache]. unfold remember.
    destruct (jsstring_eqb other PROTO); [now split|].
    assert (Hne : fsPath <> other) by (intros ->; congruence).
    cbn [ownBool].
    rewrite (jsstring_eqb_neq _ _ (not_eq_sym Hother)).
    rewrite (jsstring_eqb_neq _ _ Hne).
    rewrite !ownBool_filter; [now split | assumption |].
    now apply not_eq_sym.
  - unfold excludes, remembers.
    intros fuel fs this fsPath b root [Hown Hp] Hne.
    now rewrite Hne, Hown, Hp.
Qed.

End MatcherInFolder.

(** X10.  On ordinary plain objects the merge of [extends] drops no key
    and invents none: the result has exactly the keys of the parent and
    of the child. *)
Theorem mergeWith_keys (object source : jsobject) (m : jsval)
    (k : jsstring) :
  mergeWith (JObj object) (JObj source) = Some m ->
  ordinaryFields object = true
  /\ ordinaryFields source = true
  /\ exists fields,
       m = JObj fields
       /\ hasKey k fields = hasKey k object || hasKey k source.
Proof.
  unfold mergeWith. rewrite !ordinary_JObj.
  destruct (ordinaryFields object) eqn:Ho; [|discriminate].
  destruct (ordinaryFields source) eqn:Hs; [|discriminate].
  simpl. intros H; injection H as <-.
  repeat split. exists (baseMerge object source).
  split; [reflexivity | apply baseMerge_keys].
Qed.

Lemma mergeWith_keys_witness :
  exists fields,
    mergeWith (JObj Scenario.grandparentObject) (JObj Scenario.parentObject)
      = Some (JObj fields)
    /\ hasKey (js "curly") fields = true
    /\ hasKey (js "undef") fields = true
    /\ hasKey (js "maxlen") fields = false.
Proof.
  destruct (mergeWith (JObj Scenario.grandparentObject)
              (JObj Scenario.parentObject)) as [m|] eqn:E;
    [|vm_compute in E; discriminate].
  pose proof (mergeWith_keys _ _ m (js "curly") E) as (_ & _ & f1 & -> & H1).
  pose proof (mergeWith_keys _ _ _ (js "undef") E) as (_ & _ & f2 & E2 & H2).
  pose proof (mergeWith_keys _ _ _ (js "maxlen") E) as (_ & _ & f3 & E3 & H3).
  injection E2 as <-. injection E3 as <-.
  exists f1. split; [reflexivity|].
  rewrite H1, H2, H3. repeat split; vm_compute; reflexivity.
Defined.



Lemma excludes_answer_is_kept_witness :
  let first := Scenario.excludes 4 Scenario.emptyDisk Scenario.buildMatcher
                 (js "/p/build/out.js") (js "/p") in
  let second := Scenario.excludes 4 Scenario.emptyDisk (fst first)
                  (js "/p/src/a.js") (js "/p") in
  Scenario.excludes 0 Scenario.ignoreDisk (fst second)
    (js "/p/build/out.js") (js "/elsewhere")
    = (fst second, ([], Returns true)).
Proof.
  intros first second.
  destruct (excludes_answer_is_kept Sample.path_join Sample.path_dirname
              Sample.minimatch Sample.processIgnoreFile)
    as (Hfirst & Hkeep & Hhit).
  apply Hhit; [|reflexivity].
  apply Hkeep; [|vm_compute; discriminate].
  apply (Hfirst 4%nat Scenario.emptyDisk Scenario.buildMatcher
           (js "/p/build/out.js") (js "/p") (fst first) []).
  - run.
  - reflexivity.
  - vm_compute. discriminate.
  - vm_compute. discriminate.
Defined.
